(** * Workcell: placement propagation, joint enumerations and URDF export

    A shallow embedding of [freecad/cross/workcell.py] (class [Workcell]).
    The proxy reacts to callbacks of the host CAD application and reads and
    writes properties of document objects.  The host document is modelled as
    an explicit state, every property write and every other side effect is
    recorded in a trace of events, and Python exceptions are values of a
    result type. *)

From Stdlib Require Import ZArith.
From stdpp Require Import base decidable option list functions strings.

Open Scope string_scope.
Open Scope list_scope.

Set Warnings "-register-all".

(** ** Python exceptions *)

Inductive exn :=
| KeyError (key : string)
| AttributeError (name : string).

Inductive result (A : Type) :=
| Ok (a : A)
| Raise (e : exn).

Arguments Ok {A} a.
Arguments Raise {A} e.

Global Instance result_ret : MRet result := fun A a => Ok a.

Global Instance result_bind : MBind result := fun A B k r =>
  match r with
  | Ok a => k a
  | Raise e => Raise e
  end.

(** ** XML element trees ([xml.etree.ElementTree])

    An element has a tag, a dictionary of attributes (insertion ordered, as a
    Python dict) and a list of children.  [et.Comment] nodes have no string
    tag. *)

Inductive Element :=
| Elem (tag : string) (attrib : list (string * string)) (children : list Element)
| Comment (text : string).

(** [et.fromstring('<tag/>')] *)
Definition fromstring_empty (tag : string) : Element := Elem tag [] [].

(** [d[k] = v] on an insertion-ordered dictionary. *)
Fixpoint dict_set (k v : string) (d : list (string * string)) : list (string * string) :=
  match d with
  | [] => [(k, v)]
  | (k', v') :: d' =>
      if bool_decide (k' = k) then (k, v) :: d' else (k', v') :: dict_set k v d'
  end.

(** [d[k]], [None] standing for a missing key. *)
Fixpoint dict_get (k : string) (d : list (string * string)) : option string :=
  match d with
  | [] => None
  | (k', v') :: d' => if bool_decide (k' = k) then Some v' else dict_get k d'
  end.

(** [e.attrib[k] = v] *)
Definition set_attrib (k v : string) (e : Element) : Element :=
  match e with
  | Elem t a c => Elem t (dict_set k v a) c
  | Comment s => Comment s
  end.

(** [e.append(child)] *)
Definition append (child : Element) (e : Element) : Element :=
  match e with
  | Elem t a c => Elem t a (c ++ [child])
  | Comment s => Comment s
  end.

(** Iterating over an element yields its children. *)
Definition children (e : Element) : list Element :=
  match e with
  | Elem _ _ c => c
  | Comment _ => []
  end.

(** [e.tag == t] for a string [t]. *)
Definition tag_is (t : string) (e : Element) : bool :=
  match e with
  | Elem t' _ _ => bool_decide (t' = t)
  | Comment _ => false
  end.

(** [e.attrib[k]] *)
Definition get_attrib (k : string) (e : Element) : result string :=
  match e with
  | Elem _ a _ =>
      match dict_get k a with
      | Some v => Ok v
      | None => Raise (KeyError k)
      end
  | Comment _ => Raise (KeyError k)
  end.

(** ** The host and the helper modules

    [fc.Placement] is a rigid transform of the host, with its product and
    its comparison; the helpers of [freecad_utils], [urdf_utils], [utils],
    [ros_utils] and [wb_utils] that [workcell.py] imports are not part of the
    sources at hand.  They are taken as an interface. *)

Class Host := {
  (** [fc.Placement] and its [==] *)
  Placement : Type;
  Placement_eq_dec :: EqDecision Placement;
  (** [fc.Placement()] *)
  pid : Placement;
  (** [a * b] *)
  pmul : Placement → Placement → Placement;
  (** [freecad_utils.is_same_placement] *)
  is_same_placement : Placement → Placement → bool;
  (** [pathlib.Path] and its [/] *)
  Path : Type;
  path_div : Path → string → Path;
  (** [urdf_utils.urdf_origin_from_placement] *)
  urdf_origin_from_placement : Placement → Element;
  (** [wb_utils.get_valid_urdf_name], [utils.get_valid_filename] *)
  get_valid_urdf_name : string → string;
  get_valid_filename : string → string;
  (** [wb_utils.remove_ros_workspace], [wb_utils.get_rel_and_abs_path],
      [ros_utils.split_package_path] *)
  remove_ros_workspace : string → string;
  get_rel_and_abs_path : string → string * Path;
  split_package_path : Path → Path * string;
  (** The value an enumeration property takes when a new list of choices no
      longer offers its current value. *)
  enum_fallback : list string → string → string;
}.

(** ** Document objects *)

(** An enumeration property: the offered choices and the selected one. *)
Record Enumeration := {
  enum_list : list string;
  enum_value : string;
}.

(** A [Cross::XacroObject]: its [Placement] property and what its proxy
    answers ([root_link], [get_link_names()], [export_urdf()]). *)
Record XacroObject `{Host} := {
  xo_Placement : Placement;
  xo_root_link : string;
  xo_link_names : list string;
  xo_export_urdf : Element;
}.

(** A [Cross::Joint]: the properties [Placement], [Origin], [Parent] and
    [Child], and what [Proxy.get_actuation_placement()] answers. *)
Record Joint `{Host} := {
  jt_Placement : Placement;
  jt_Origin : Placement;
  jt_actuation_placement : Placement;
  jt_Parent : Enumeration;
  jt_Child : Enumeration;
}.

(** A link of a robot, of which only [Placement] is read. *)
Record Link `{Host} := {
  lk_Placement : Placement;
}.

(** Members of the [Group] of a workcell. *)
Inductive DocumentObject :=
| XacroObjectRef (i : nat)
| JointRef (j : nat)
| OtherRef (o : nat).

(** The workcell object itself.  A property that the object does not have
    (yet) is [None]. *)
Record Workcell := {
  OutputPath : option string;
  RootLink : option string;
  Group : list DocumentObject;
}.

(** The part of the host document that the proxy sees.  Objects are
    designated by a number, separately for each kind. *)
Record Document `{Host} := {
  workcell : Workcell;
  xacros : nat → XacroObject;
  joints : nat → Joint;
  links : nat → Link;
}.

(** An [XacroObjectAttachment] of [wb_utils]: a xacro object, the joint that
    attaches it and the link it is attached to. *)
Record Attachment := {
  xacro_object : nat;
  attached_to : option nat;
  attached_by : option nat;
}.

Global Instance Attachment_eq_dec : EqDecision Attachment.
Proof. solve_decision. Defined.

(** What the proxy does to the outside world. *)
Inductive Event `{Host} :=
| SetXacroPlacement (i : nat) (p : Placement)
| SetJointPlacement (j : nat) (p : Placement)
| SetJointChild (j : nat) (choices : list string)
| SetJointParent (j : nat) (choices : list string)
| SetOutputPath (p : string)
| Warn (text : string) (gui : bool)
| Mkdir (path : Path)
| SaveXml (xml : Element) (path : Path)
| ExportTemplates (files : list string) (package_parent : Path)
    (package_name urdf_file : string).

(** The collaborators whose answers depend on the document:
    [ProxyBase.is_ready], [wb_utils.ros_name], [wb_utils.get_xacro_chains]
    and [wb_utils.get_xacro_object_attachments]. *)
Class Collaborators `{Host} := {
  is_ready : Workcell → bool;
  ros_name : Workcell → string;
  get_xacro_chains : Document → list nat → list nat → list (list Attachment);
  get_xacro_object_attachments : Document → list nat → list nat → list Attachment;
}.

(** ** Property writes *)

Section Writes.
Context `{Host}.

Definition with_xo_Placement (p : Placement) (x : XacroObject) : XacroObject :=
  {| xo_Placement := p; xo_root_link := xo_root_link x;
     xo_link_names := xo_link_names x; xo_export_urdf := xo_export_urdf x |}.

Definition with_jt_Placement (p : Placement) (j : Joint) : Joint :=
  {| jt_Placement := p; jt_Origin := jt_Origin j;
     jt_actuation_placement := jt_actuation_placement j;
     jt_Parent := jt_Parent j; jt_Child := jt_Child j |}.

(** Assigning a list to an enumeration property sets its choices; the
    selected value stays when the new choices still offer it (the source
    notes: "Doesn't change the value if old value in the new enum"). *)
Definition assign_enum (choices : list string) (e : Enumeration) : Enumeration :=
  {| enum_list := choices;
     enum_value := if bool_decide (enum_value e ∈ choices) then enum_value e
                   else enum_fallback choices (enum_value e) |}.

Definition with_jt_Child (choices : list string) (j : Joint) : Joint :=
  {| jt_Placement := jt_Placement j; jt_Origin := jt_Origin j;
     jt_actuation_placement := jt_actuation_placement j;
     jt_Parent := jt_Parent j; jt_Child := assign_enum choices (jt_Child j) |}.

Definition with_jt_Parent (choices : list string) (j : Joint) : Joint :=
  {| jt_Placement := jt_Placement j; jt_Origin := jt_Origin j;
     jt_actuation_placement := jt_actuation_placement j;
     jt_Parent := assign_enum choices (jt_Parent j); jt_Child := jt_Child j |}.

(** [xo.Placement = p] *)
Definition set_xo_Placement (i : nat) (p : Placement) (d : Document) : Document :=
  {| workcell := workcell d;
     xacros := <[i := with_xo_Placement p (xacros d i)]> (xacros d);
     joints := joints d; links := links d |}.

Definition alter_joint (f : Joint → Joint) (j : nat) (d : Document) : Document :=
  {| workcell := workcell d; xacros := xacros d;
     joints := <[j := f (joints d j)]> (joints d); links := links d |}.

(** [joint.Placement = p], [joint.Child = choices], [joint.Parent = choices] *)
Definition set_joint_Placement (j : nat) (p : Placement) : Document → Document :=
  alter_joint (with_jt_Placement p) j.
Definition set_joint_Child (j : nat) (choices : list string) : Document → Document :=
  alter_joint (with_jt_Child choices) j.
Definition set_joint_Parent (j : nat) (choices : list string) : Document → Document :=
  alter_joint (with_jt_Parent choices) j.

(** [obj.OutputPath = p] *)
Definition set_OutputPath (p : string) (d : Document) : Document :=
  {| workcell := {| OutputPath := Some p; RootLink := RootLink (workcell d);
                    Group := Group (workcell d) |};
     xacros := xacros d; joints := joints d; links := links d |}.

End Writes.

(** ** The methods of [Workcell] *)

(** A monadic loop: [for x in l: s = f(s, x)], stopping at the first
    exception. *)
Fixpoint for_each {A S : Type} (f : S → A → result S) (l : list A) (s : S) : result S :=
  match l with
  | [] => Ok s
  | x :: l' => s' ← f s x; for_each f l' s'
  end.

Section Methods.
Context `{Collaborators}.

(** A document together with the trace of what was done to reach it. *)
Definition World : Type := Document * list Event.

(** Do a property write and record it. *)
Definition write (e : Event) (f : Document → Document) (w : World) : World :=
  (f w.1, w.2 ++ [e]).

(** Modelled from the spec: [wb_utils.get_xacro_objects] and
    [wb_utils.get_joints] are not among the sources; a workcell's group holds
    xacro objects and joints, and these select each kind, in group order. *)
Definition wb_get_xacro_objects (group : list DocumentObject) : list nat :=
  omap (fun o => match o with XacroObjectRef i => Some i | _ => None end) group.

Definition wb_get_joints (group : list DocumentObject) : list nat :=
  omap (fun o => match o with JointRef j => Some j | _ => None end) group.

(** [Workcell.get_xacro_objects] and [Workcell.get_joints] *)
Definition get_xacro_objects (d : Document) : list nat :=
  if negb (is_ready (workcell d)) then []
  else wb_get_xacro_objects (Group (workcell d)).

Definition get_joints (d : Document) : list nat :=
  if negb (is_ready (workcell d)) then []
  else wb_get_joints (Group (workcell d)).

(** *** [set_joint_enum] *)

(** The first loop: the choices for [Child] and for [Parent]. *)
Definition collect_links (d : Document) (root : string) : list string * list string :=
  fold_left
    (fun '(child_links, parent_links) xacro_object =>
       (child_links ++ [xo_root_link (xacros d xacro_object)],
        parent_links ++ xo_link_names (xacros d xacro_object)))
    (get_xacro_objects d)
    ([""], [""; root]).

(** The body of the second loop, for one joint. *)
Definition set_one_joint_enum (child_links parent_links : list string)
    (w : World) (joint : nat) : World :=
  let w :=
    if bool_decide (enum_list (jt_Child (joints w.1 joint)) ≠ child_links)
    then write (SetJointChild joint child_links) (set_joint_Child joint child_links) w
    else w in
  if bool_decide (enum_list (jt_Parent (joints w.1 joint)) ≠ parent_links)
  then write (SetJointParent joint parent_links) (set_joint_Parent joint parent_links) w
  else w.

Definition set_joint_enum (d : Document) : result World :=
  if negb (is_ready (workcell d)) then Ok (d, [])
  else
    match RootLink (workcell d) with
    | None => Raise (AttributeError "RootLink")
    | Some root =>
        let '(child_links, parent_links) := collect_links d root in
        Ok (fold_left (set_one_joint_enum child_links parent_links)
                      (get_joints d) (d, []))
    end.

(** *** [place_xacro_objects] *)

(** The body of the inner loop: [s] holds the running [placement]. *)
Definition place_attachment (s : Placement * World) (attachment : Attachment)
    : Placement * World :=
  let '(placement, w) := s in
  let xo := xacro_object attachment in
  let placement :=
    match attached_to attachment with
    | Some link => pmul placement (lk_Placement (links w.1 link))
    | None => placement
    end in
  let '(placement, w) :=
    match attached_by attachment with
    | Some joint =>
        let placement := pmul placement (jt_Origin (joints w.1 joint)) in
        let w :=
          if bool_decide (jt_Placement (joints w.1 joint) ≠ placement)
          then write (SetJointPlacement joint placement)
                     (set_joint_Placement joint placement) w
          else w in
        (pmul placement (jt_actuation_placement (joints w.1 joint)), w)
    | None => (placement, w)
    end in
  let w :=
    if negb (is_same_placement (xo_Placement (xacros w.1 xo)) placement)
    then write (SetXacroPlacement xo placement) (set_xo_Placement xo placement) w
    else w in
  (placement, w).

(** The body of the outer loop: one chain, starting from [fc.Placement()]. *)
Definition place_chain (w : World) (chain : list Attachment) : World :=
  (fold_left place_attachment chain (pid, w)).2.

Definition place_chains (chains : list (list Attachment)) (w : World) : World :=
  fold_left place_chain chains w.

Definition place_xacro_objects (d : Document) : World :=
  place_chains (get_xacro_chains d (get_xacro_objects d) (get_joints d)) (d, []).

(** *** [onChanged] *)

Definition onChanged (d : Document) (prop : string) : result World :=
  if bool_decide (prop = "OutputPath") then
    match OutputPath (workcell d) with
    | None => Raise (AttributeError "OutputPath")
    | Some current =>
        let rel_path := remove_ros_workspace current in
        if bool_decide (rel_path ≠ current)
        then Ok (write (SetOutputPath rel_path) (set_OutputPath rel_path) (d, []))
        else Ok (d, [])
    end
  else Ok (d, []).

(** *** [export_urdf] *)

(** Modelled from the spec: [utils.hasallattr] is not among the sources; the
    required properties are checked to be set on the object. *)
Definition hasattr (obj : Workcell) (name : string) : bool :=
  if bool_decide (name = "OutputPath") then bool_decide (is_Some (OutputPath obj))
  else if bool_decide (name = "RootLink") then bool_decide (is_Some (RootLink obj))
  else bool_decide (name = "Group").

Definition hasallattr (obj : Workcell) (names : list string) : bool :=
  forallb (hasattr obj) names.

(** The loop over the children of one exported xacro: [s] holds [includes]
    and [robot_et]. *)
Definition splice_child (s : list string * Element) (child_et : Element)
    : result (list string * Element) :=
  let '(includes, robot_et) := s in
  includes ←
    (if tag_is "xmlns:include" child_et then
       filename ← get_attrib "filename" child_et;
       if bool_decide (filename ∉ includes)
       then Ok (includes ++ [filename])
       else Ok includes
     else Ok includes);
  Ok (includes, append child_et robot_et).

(** The joint that attaches a xacro: the real one when there is one, else a
    joint from the root link to the root link of the xacro. *)
Definition attaching_joint_et (d : Document) (world_link_name : string)
    (attachment : Attachment) : Element :=
  let xo := xacros d (xacro_object attachment) in
  let joint_et := fromstring_empty "joint" in
  let '(parent_link, child_link, origin) :=
    match attached_by attachment with
    | Some joint =>
        (enum_value (jt_Parent (joints d joint)),
         enum_value (jt_Child (joints d joint)),
         jt_Origin (joints d joint))
    | None => (world_link_name, xo_root_link xo, xo_Placement xo)
    end in
  let joint_et := set_attrib "name" (parent_link +:+ "_to_" +:+ child_link) joint_et in
  let joint_et := set_attrib "type" "fixed" joint_et in
  let parent_et := set_attrib "link" parent_link (fromstring_empty "parent") in
  let joint_et := append parent_et joint_et in
  let child_et := set_attrib "link" child_link (fromstring_empty "child") in
  let joint_et := append child_et joint_et in
  let origin_et := urdf_origin_from_placement origin in
  append origin_et joint_et.

(** The body of the loop over the attachments. *)
Definition export_attachment (d : Document) (world_link_name : string)
    (s : list string * Element) (attachment : Attachment)
    : result (list string * Element) :=
  let xacro_et := xo_export_urdf (xacros d (xacro_object attachment)) in
  '(includes, robot_et) ← for_each splice_child (children xacro_et) s;
  Ok (includes, append (attaching_joint_et d world_link_name attachment) robot_et).

Definition generated_by : string :=
  "Generated by CROSS, a ROS Workbench for FreeCAD (https://github.com/galou/freecad.cross)".

Definition template_files : list string :=
  ["package.xml"; "CMakeLists.txt"; "launch/display.launch.py";
   "rviz/robot_description.rviz"].

(** The robot element as it stands when the loop over the attachments
    starts. *)
Definition robot_et_start (d : Document) (root : string) : Element :=
  let robot_et := fromstring_empty "robot" in
  let robot_et := set_attrib "name" (get_valid_urdf_name (ros_name (workcell d))) robot_et in
  let robot_et := append (Comment generated_by) robot_et in
  let world_link_et := set_attrib "name" root (fromstring_empty "link") in
  append world_link_et robot_et.

(** The method returns nothing on any path; the robot element is seen in the
    trace, where [save_xml] receives it.  An exception can only come from the
    loop over the attachments, before anything is written, so that a raised
    exception carries no document and no trace. *)
Definition export_urdf (d : Document) : result World :=
  if negb (is_ready (workcell d)) then Ok (d, [])
  else
    let obj := workcell d in
    if negb (hasallattr obj ["OutputPath"; "RootLink"]) then Ok (d, [])
    else
      match OutputPath obj, RootLink obj with
      | Some output, Some root =>
          if bool_decide (output = "")
          then Ok (d, [Warn "Property `OutputPath` cannot be empty" true])
          else
            let xacro_objects := get_xacro_objects d in
            let joints := get_joints d in
            let attachments := get_xacro_object_attachments d xacro_objects joints in
            '(includes, robot_et) ←
              for_each (export_attachment d root) attachments
                       ([], robot_et_start d root);
            let '(p, output_path) := get_rel_and_abs_path output in
            let w : World :=
              if bool_decide (p ≠ output)
              then write (SetOutputPath p) (set_OutputPath p) (d, [])
              else (d, []) in
            let '(package_parent, package_name) := split_package_path output_path in
            let robot_name := ros_name (workcell w.1) in
            let file_base := get_valid_filename robot_name in
            let urdf_file := file_base +:+ ".urdf.xacro" in
            let urdf_path := path_div output_path ("urdf/" +:+ urdf_file) in
            Ok (w.1, w.2 ++ [Mkdir output_path;
                             SaveXml robot_et urdf_path;
                             ExportTemplates template_files package_parent
                                             package_name urdf_file])
      | None, _ => Raise (AttributeError "OutputPath")
      | _, None => Raise (AttributeError "RootLink")
      end.

End Methods.

(** ** Chains of attachments, as the specification words them *)

Section Chains.
Context `{Host}.

(** What one attachment contributes to the placement of its xacro object:
    the placement of the link it is attached to, then the origin of its
    joint, then the actuation placement of its joint. *)
Definition link_factor (d : Document) (a : Attachment) : list Placement :=
  match attached_to a with
  | Some link => [lk_Placement (links d link)]
  | None => []
  end.

Definition joint_factors (d : Document) (a : Attachment) : list Placement :=
  match attached_by a with
  | Some joint => [jt_Origin (joints d joint); jt_actuation_placement (joints d joint)]
  | None => []
  end.

Definition attachment_factors (d : Document) (a : Attachment) : list Placement :=
  link_factor d a ++ joint_factors d a.

(** The product of placements in the order of the list, from the identity. *)
Definition product (ps : list Placement) : Placement := fold_left pmul ps pid.

(** The accumulated placement of a chain walked from its root. *)
Definition chain_product (d : Document) (chain : list Attachment) : Placement :=
  product (flat_map (attachment_factors d) chain).

(** The accumulated placement up to and including the origin of the joint of
    [a], the attachments [before] having been walked. *)
Definition joint_product (d : Document) (before : list Attachment) (a : Attachment)
    (joint : nat) : Placement :=
  product (flat_map (attachment_factors d) before ++ link_factor d a
           ++ [jt_Origin (joints d joint)]).

(** The positions of a chain: each attachment with the attachments walked
    before it. *)
Fixpoint positions_from (before chain : list Attachment)
    : list (list Attachment * Attachment) :=
  match chain with
  | [] => []
  | a :: chain' => (before, a) :: positions_from (before ++ [a]) chain'
  end.

Definition positions (chains : list (list Attachment))
    : list (list Attachment * Attachment) :=
  flat_map (positions_from []) chains.

(** Two attachments hold the same xacro object, or are made by the same
    joint. *)
Definition shares (a1 a2 : Attachment) : bool :=
  bool_decide (xacro_object a1 = xacro_object a2)
  || match attached_by a1, attached_by a2 with
     | Some j1, Some j2 => bool_decide (j1 = j2)
     | _, _ => false
     end.

(** The chains are the root-to-leaf paths of a forest: wherever a xacro
    object or a joint occurs, the same attachments lead to it from the
    root. *)
Definition rooted_chains (chains : list (list Attachment)) : bool :=
  forallb (fun s1 =>
    forallb (fun s2 => implb (shares s1.2 s2.2) (bool_decide (s1 = s2)))
            (positions chains))
    (positions chains).

End Chains.

(** ** The choices of the joint enumerations, in closed form *)

Section Choices.
Context `{Collaborators}.

(** The empty string, then the root link of every xacro object. *)
Definition child_choices (d : Document) : list string :=
  "" :: map (λ i, xo_root_link (xacros d i)) (get_xacro_objects d).

(** The empty string, the root link of the workcell, then every link name of
    every xacro object. *)
Definition parent_choices (d : Document) (root : string) : list string :=
  "" :: root :: flat_map (λ i, xo_link_names (xacros d i)) (get_xacro_objects d).

End Choices.

(** ** The walk of [place_xacro_objects], position by position *)

Section Walk.
Context `{Collaborators}.

(** What the inner loop does at one position, the placements being computed
    from the document [d0] the walk started from. *)
Definition place_position (d0 : Document) (w : World)
    (s : list Attachment * Attachment) : World :=
  let '(before, a) := s in
  let w :=
    match attached_by a with
    | Some joint =>
        let target := joint_product d0 before a joint in
        if bool_decide (jt_Placement (joints w.1 joint) ≠ target)
        then write (SetJointPlacement joint target)
                   (set_joint_Placement joint target) w
        else w
    | None => w
    end in
  let target := chain_product d0 (before ++ [a]) in
  if negb (is_same_placement (xo_Placement (xacros w.1 (xacro_object a))) target)
  then write (SetXacroPlacement (xacro_object a) target)
             (set_xo_Placement (xacro_object a) target) w
  else w.

(** The placements that the walk reads and never writes. *)
Definition same_inputs (d0 d : Document) : Prop :=
  (∀ l, lk_Placement (links d l) = lk_Placement (links d0 l))
  ∧ (∀ j, jt_Origin (joints d j) = jt_Origin (joints d0 j))
  ∧ (∀ j, jt_actuation_placement (joints d j) = jt_actuation_placement (joints d0 j)).

End Walk.

(** ** The exported document, as the specification words it *)

Section Exported.
Context `{Collaborators}.

(** A fixed joint from [parent_link] to [child_link]:
    [<joint name="{parent}_to_{child}" type="fixed"><parent link=.../>
    <child link=.../><origin .../></joint>]. *)
Definition fixed_joint_et (parent_link child_link : string) (origin : Placement)
    : Element :=
  Elem "joint"
    [("name", parent_link +:+ "_to_" +:+ child_link); ("type", "fixed")]
    [Elem "parent" [("link", parent_link)] [];
     Elem "child" [("link", child_link)] [];
     urdf_origin_from_placement origin].

(** What an attachment brings to the robot element: the children of the
    exported xacro, then the joint that attaches it. *)
Definition attachment_content (d : Document) (root : string) (a : Attachment)
    : list Element :=
  children (xo_export_urdf (xacros d (xacro_object a)))
  ++ [attaching_joint_et d root a].

(** Every [xmlns:include] child of an element has a [filename]. *)
Definition includes_have_filename (xacro_et : Element) : bool :=
  forallb (λ child_et,
             implb (tag_is "xmlns:include" child_et)
                   (match get_attrib "filename" child_et with
                    | Ok _ => true
                    | Raise _ => false
                    end))
          (children xacro_et).

(** The attachments that [export_urdf] walks. *)
Definition export_attachments (d : Document) : list Attachment :=
  get_xacro_object_attachments d (get_xacro_objects d) (get_joints d).

(** The document is ready for export: the proxy is ready, the output path is
    [output] and not empty, the root link is [root], and the exported xacros
    are well formed. *)
Definition exportable (d : Document) (output root : string) : Prop :=
  is_ready (workcell d) = true
  ∧ OutputPath (workcell d) = Some output
  ∧ output ≠ ""
  ∧ RootLink (workcell d) = Some root
  ∧ forallb (λ a, includes_have_filename (xo_export_urdf (xacros d (xacro_object a))))
            (export_attachments d) = true.

(** The element trees written to files. *)
Definition saved_xml (trace : list Event) : list Element :=
  omap (λ e, match e with SaveXml xml _ => Some xml | _ => None end) trace.

(** The writes to properties, and to the file system. *)
Definition is_property_write (e : Event) : bool :=
  match e with
  | SetXacroPlacement _ _ | SetJointPlacement _ _ | SetJointChild _ _
  | SetJointParent _ _ | SetOutputPath _ => true
  | _ => false
  end.

Definition is_file_write (e : Event) : bool :=
  match e with
  | Mkdir _ | SaveXml _ _ | ExportTemplates _ _ _ _ => true
  | _ => false
  end.

(** The [xmlns:include] children of an element for a given file. *)
Definition include_directives (filename : string) (e : Element) : list Element :=
  List.filter (λ child_et,
                 tag_is "xmlns:include" child_et
                 && match get_attrib "filename" child_et with
                    | Ok f => bool_decide (f = filename)
                    | Raise _ => false
                    end)
              (children e).

End Exported.

(** ** A small host to compute with

    Placements are the affine maps [x ↦ a * x + b] over the integers, whose
    product does not commute; paths are strings. *)

Module Demo.

Definition affine_mul (p q : Z * Z) : Z * Z :=
  (p.1 * q.1, p.1 * q.2 + p.2)%Z.

Definition strip_workspace (s : string) : string :=
  if String.prefix "/ws/src/" s then String.substring 8 (String.length s - 8) s else s.

Definition demo_host : Host := {|
  Placement := Z * Z;
  pid := (1, 0)%Z;
  pmul := affine_mul;
  is_same_placement := fun p q => bool_decide (p = q);
  Path := string;
  path_div := fun p s => p +:+ "/" +:+ s;
  urdf_origin_from_placement := fun p =>
    Elem "origin" [("xyz", if bool_decide (p = (1, 0)%Z) then "0 0 0" else "moved")] [];
  get_valid_urdf_name := fun s => s;
  get_valid_filename := fun s => s;
  remove_ros_workspace := strip_workspace;
  get_rel_and_abs_path := fun s => (strip_workspace s, "/ws/src/" +:+ strip_workspace s);
  split_package_path := fun p => ("/ws/src", strip_workspace p);
  enum_fallback := fun choices _ => hd "" choices;
|}.

#[local] Existing Instance demo_host.

Definition demo_collaborators (chains : list (list Attachment))
    (attachments : list Attachment) : Collaborators := {|
  is_ready := fun _ => true;
  ros_name := fun _ => "cell";
  get_xacro_chains := fun _ _ _ => chains;
  get_xacro_object_attachments := fun _ _ _ => attachments;
|}.

(** Three xacro objects: a table on the root, an arm on the table's link 0
    by joint 0, a gripper on the arm's link 1 by joint 1. *)
Definition table : Attachment :=
  {| xacro_object := 0; attached_to := None; attached_by := None |}.
Definition arm : Attachment :=
  {| xacro_object := 1; attached_to := Some 0; attached_by := Some 0 |}.
Definition gripper : Attachment :=
  {| xacro_object := 2; attached_to := Some 1; attached_by := Some 1 |}.

Definition cell_chains : list (list Attachment) :=
  [[table]; [table; arm]; [table; arm; gripper]].

Definition include_et (filename : string) : Element :=
  Elem "xmlns:include" [("filename", filename)] [].

Definition cell_xacro (i : nat) : XacroObject :=
  {| xo_Placement := (1, 0)%Z;
     xo_root_link := match i with 0 => "table_base" | 1 => "arm_base" | _ => "gripper_base" end;
     xo_link_names := match i with
                      | 0 => ["table_base"; "table_top"]
                      | 1 => ["arm_base"; "arm_tip"]
                      | _ => ["gripper_base"]
                      end;
     xo_export_urdf :=
       Elem "robot" []
         [include_et "common.xacro";
          Elem "xmlns:part" [("prefix", match i with 0 => "t_" | 1 => "a_" | _ => "g_" end)] []] |}.

Definition cell_joint (j : nat) : Joint :=
  {| jt_Placement := (1, 0)%Z;
     jt_Origin := match j with 0 => (1, 5)%Z | _ => (2, 0)%Z end;
     jt_actuation_placement := match j with 0 => (-1, 0)%Z | _ => (1, 3)%Z end;
     jt_Parent := {| enum_list := []; enum_value := match j with 0 => "table_top" | _ => "arm_tip" end |};
     jt_Child := {| enum_list := []; enum_value := match j with 0 => "arm_base" | _ => "gripper_base" end |} |}.

Definition cell_link (l : nat) : Link :=
  {| lk_Placement := match l with 0 => (1, 7)%Z | _ => (3, 1)%Z end |}.

Definition cell_workcell (output : option string) (root : option string) : Workcell :=
  {| OutputPath := output; RootLink := root;
     Group := [XacroObjectRef 0; JointRef 0; XacroObjectRef 1; JointRef 1;
               XacroObjectRef 2] |}.

Definition cell (output : option string) (root : option string) : Document :=
  {| workcell := cell_workcell output root;
     xacros := cell_xacro; joints := cell_joint; links := cell_link |}.

(** The collaborators of the cell: its chains, and its attachments. *)
Definition cell_collaborators : Collaborators :=
  demo_collaborators cell_chains [table; arm; gripper].

(** The collaborators of a workcell whose attachments are given. *)
Definition plain_collaborators (attachments : list Attachment) : Collaborators :=
  demo_collaborators [] attachments.

(** A workcell with a single xacro object and no joint. *)
Definition lone_workcell : Document :=
  {| workcell := {| OutputPath := Some "cell_description"; RootLink := Some "world";
                    Group := [XacroObjectRef 0] |};
     xacros := cell_xacro; joints := cell_joint; links := cell_link |}.

End Demo.

(** ** The other methods of [Workcell] *)

Section MoreMethods.
Context `{Collaborators}.

(** [execute]: the enumerations first, then the placements. *)
Definition execute (d : Document) : result World :=
  w1 ← set_joint_enum d;
  let w2 := place_xacro_objects w1.1 in
  Ok (w2.1, w1.2 ++ w2.2).

(** Two documents that differ at most in the [Placement] of xacro objects
    and of joints. *)
Definition placements_apart (d d' : Document) : Prop :=
  workcell d' = workcell d
  ∧ links d' = links d
  ∧ (∀ j, jt_Origin (joints d' j) = jt_Origin (joints d j)
          ∧ jt_actuation_placement (joints d' j) = jt_actuation_placement (joints d j)
          ∧ jt_Parent (joints d' j) = jt_Parent (joints d j)
          ∧ jt_Child (joints d' j) = jt_Child (joints d j))
  ∧ (∀ i, xo_root_link (xacros d' i) = xo_root_link (xacros d i)
          ∧ xo_link_names (xacros d' i) = xo_link_names (xacros d i)
          ∧ xo_export_urdf (xacros d' i) = xo_export_urdf (xacros d i)).

(** Two documents that differ at most in the [Child] and [Parent] of
    joints. *)
Definition enumerations_apart (d d' : Document) : Prop :=
  workcell d' = workcell d
  ∧ xacros d' = xacros d
  ∧ links d' = links d
  ∧ (∀ j, jt_Placement (joints d' j) = jt_Placement (joints d j)
          ∧ jt_Origin (joints d' j) = jt_Origin (joints d j)
          ∧ jt_actuation_placement (joints d' j) = jt_actuation_placement (joints d j)).

(** The filename that a child adds to [includes], if any. *)
Definition child_filename (child_et : Element) : option string :=
  if tag_is "xmlns:include" child_et
  then match get_attrib "filename" child_et with
       | Ok f => Some f
       | Raise _ => None
       end
  else None.

(** The filenames of the [xmlns:include] children of an element. *)
Definition include_filenames (xacro_et : Element) : list string :=
  omap child_filename (children xacro_et).

End MoreMethods.

(** ** The state of the proxy that is saved with the document *)

(** The proxy of a workcell, of which [Type] is saved. *)
Record WorkcellProxy := {
  proxy_Type : string;
}.

(** [__getstate__]: the tuple [(self.Type,)]. *)
Definition __getstate__ (self : WorkcellProxy) : list string :=
  [proxy_Type self].

(** [__setstate__]: a false state ([None] or the empty tuple) changes
    nothing; else the state is unpacked into [Type], which fails (with a
    [ValueError], here [None]) unless it has one element. *)
Definition __setstate__ (self : WorkcellProxy) (state : option (list string))
    : option WorkcellProxy :=
  match state with
  | None | Some [] => Some self
  | Some [t] => Some {| proxy_Type := t |}
  | Some _ => None
  end.

(** ** More of the small host *)

Module DemoMore.
Import Demo.
#[local] Existing Instance demo_host.

(** A xacro whose include has no [filename]. *)
Definition broken_xacro (i : nat) : XacroObject :=
  {| xo_Placement := (1, 0)%Z;
     xo_root_link := "base";
     xo_link_names := ["base"];
     xo_export_urdf :=
       Elem "robot" []
         [Elem "xmlns:part" [] []; Elem "xmlns:include" [("file", "common.xacro")] []] |}.

Definition broken_cell : Document :=
  {| workcell := cell_workcell (Some "cell_description") (Some "world");
     xacros := broken_xacro; joints := cell_joint; links := cell_link |}.

(** The cell with joint 0 already offering the choices for [Child]. *)
Definition half_set_joint (j : nat) : Joint :=
  {| jt_Placement := (1, 0)%Z;
     jt_Origin := jt_Origin (cell_joint j);
     jt_actuation_placement := jt_actuation_placement (cell_joint j);
     jt_Parent := {| enum_list := []; enum_value := "" |};
     jt_Child :=
       {| enum_list := match j with
                       | 0 => [""; "table_base"; "arm_base"; "gripper_base"]
                       | _ => []
                       end;
          enum_value := "" |} |}.

Definition half_set_cell : Document :=
  {| workcell := cell_workcell (Some "cell_description") (Some "world");
     xacros := cell_xacro; joints := half_set_joint; links := cell_link |}.

(** What a method that has returned leaves; [d] itself had it raised. *)
Definition returned (r : result World) (d : Document) : World :=
  match r with
  | Ok w => w
  | Raise _ => (d, [])
  end.

End DemoMore.

(** * Proofs *)

(** Membership in a list built with [::] and [++]. *)
Ltac in_list :=
  solve [ done
        | apply list_elem_of_here
        | apply list_elem_of_further; in_list
        | apply elem_of_app; left; in_list
        | apply elem_of_app; right; in_list ].

(** ** Placement propagation *)

Section PlacementFacts.
Context `{Collaborators}.

Lemma product_app (ps qs : list Placement) :
  product (ps ++ qs) = fold_left pmul qs (product ps).
Proof. unfold product. apply fold_left_app. Qed.

Lemma chain_product_snoc (d : Document) (before : list Attachment) (a : Attachment) :
  chain_product d (before ++ [a])
  = fold_left pmul (attachment_factors d a) (chain_product d before).
Proof.
  unfold chain_product. rewrite flat_map_app, product_app. simpl.
  by rewrite app_nil_r.
Qed.

Lemma joint_product_unfold (d : Document) (before : list Attachment) a j :
  joint_product d before a j
  = fold_left pmul (link_factor d a ++ [jt_Origin (joints d j)]) (chain_product d before).
Proof. unfold joint_product, chain_product. by rewrite product_app. Qed.

Lemma same_inputs_refl (d : Document) : same_inputs d d.
Proof. by repeat split. Qed.

Lemma same_inputs_set_joint_Placement (d0 d : Document) j p :
  same_inputs d0 d → same_inputs d0 (set_joint_Placement j p d).
Proof.
  intros (Hl & Ho & Ha). repeat split; simpl; [done | |];
    intros j'; destruct (decide (j = j')) as [->|Hne].
  - rewrite fn_lookup_insert. apply Ho.
  - rewrite fn_lookup_insert_ne by done. apply Ho.
  - rewrite fn_lookup_insert. apply Ha.
  - rewrite fn_lookup_insert_ne by done. apply Ha.
Qed.

Lemma same_inputs_set_xo_Placement (d0 d : Document) i p :
  same_inputs d0 d → same_inputs d0 (set_xo_Placement i p d).
Proof. intros (Hl & Ho & Ha). by repeat split. Qed.

Lemma place_position_inputs (d0 : Document) (w : World) s :
  same_inputs d0 w.1 → same_inputs d0 (place_position d0 w s).1.
Proof.
  destruct s as [before a]. unfold place_position. intros Hin.
  destruct (attached_by a) as [j|].
  - case_bool_decide; destruct (is_same_placement _ _); simpl;
      auto using same_inputs_set_joint_Placement, same_inputs_set_xo_Placement.
  - destruct (is_same_placement _ _); simpl;
      auto using same_inputs_set_xo_Placement.
Qed.

(** One turn of the inner loop is the step at the position reached, when the
    running placement is the product of the chain walked so far. *)
Lemma place_attachment_position (d0 : Document) (w : World) before a :
  same_inputs d0 w.1 →
  place_attachment (chain_product d0 before, w) a
  = (chain_product d0 (before ++ [a]), place_position d0 w (before, a)).
Proof.
  intros (Hl & Ho & Ha).
  unfold place_attachment, place_position.
  destruct (attached_to a) as [l|] eqn:Hto, (attached_by a) as [j|] eqn:Hby;
    rewrite chain_product_snoc, ?joint_product_unfold;
    unfold attachment_factors, link_factor, joint_factors;
    rewrite Hto, Hby; simpl; rewrite ?Hl, ?Ho;
    generalize (chain_product d0 before); intros p; try done.
  - case_bool_decide; simpl; rewrite ?fn_lookup_insert; simpl; rewrite ?Ha; done.
  - case_bool_decide; simpl; rewrite ?fn_lookup_insert; simpl; rewrite ?Ha; done.
Qed.


Lemma place_positions_inputs (d0 : Document) l (w : World) :
  same_inputs d0 w.1 → same_inputs d0 (fold_left (place_position d0) l w).1.
Proof.
  revert w. induction l as [|s l IH]; intros w Hin; simpl; [done|].
  apply IH. by apply place_position_inputs.
Qed.

Lemma place_attachments_positions (d0 : Document) chain before (w : World) :
  same_inputs d0 w.1 →
  fold_left place_attachment chain (chain_product d0 before, w)
  = (chain_product d0 (before ++ chain),
     fold_left (place_position d0) (positions_from before chain) w).
Proof.
  revert before w. induction chain as [|a chain IH]; intros before w Hin;
    cbn [fold_left positions_from].
  - by rewrite app_nil_r.
  - rewrite place_attachment_position by done.
    rewrite IH by (by apply place_position_inputs).
    by rewrite <- app_assoc.
Qed.

Lemma place_chain_positions (d0 : Document) chain (w : World) :
  same_inputs d0 w.1 →
  place_chain w chain = fold_left (place_position d0) (positions_from [] chain) w.
Proof.
  intros Hin. unfold place_chain.
  change pid with (chain_product d0 []).
  by rewrite place_attachments_positions.
Qed.

(** The nested loops are one walk over the positions of the chains. *)
Lemma place_chains_positions (d0 : Document) chains (w : World) :
  same_inputs d0 w.1 →
  place_chains chains w = fold_left (place_position d0) (positions chains) w.
Proof.
  unfold place_chains, positions.
  revert w. induction chains as [|c chains IH]; intros w Hin; simpl; [done|].
  rewrite fold_left_app, (place_chain_positions d0) by done.
  apply IH. by apply place_positions_inputs.
Qed.

(** What one step leaves in the [Placement] of a joint and of a xacro
    object. *)
Lemma place_position_joint (d0 : Document) (w : World) before a j' :
  jt_Placement (joints (place_position d0 w (before, a)).1 j')
  = match attached_by a with
    | Some j => if bool_decide (j' = j) then joint_product d0 before a j
                else jt_Placement (joints w.1 j')
    | None => jt_Placement (joints w.1 j')
    end.
Proof.
  unfold place_position.
  destruct (attached_by a) as [j|].
  - case_bool_decide as Hw; destruct (is_same_placement _ _); simpl;
      case_bool_decide as Hj; subst;
      rewrite ?fn_lookup_insert, ?fn_lookup_insert_ne by done; try done.
    all: by apply dec_stable in Hw.
  - by destruct (is_same_placement _ _).
Qed.

Lemma place_position_xo (d0 : Document) (w : World) before a i :
  xo_Placement (xacros (place_position d0 w (before, a)).1 i)
  = if bool_decide (i = xacro_object a)
       && negb (is_same_placement (xo_Placement (xacros w.1 i))
                                  (chain_product d0 (before ++ [a])))
    then chain_product d0 (before ++ [a])
    else xo_Placement (xacros w.1 i).
Proof.
  unfold place_position.
  set (w' := match attached_by a with Some _ => _ | None => _ end).
  assert (Hx : xacros w'.1 = xacros w.1).
  { subst w'. destruct (attached_by a); [case_bool_decide|]; done. }
  rewrite Hx. case_bool_decide as Hi; simpl.
  - subst i. destruct (is_same_placement _ _); simpl; [by rewrite Hx|].
    by rewrite fn_lookup_insert.
  - destruct (is_same_placement _ _); simpl; rewrite ?Hx; [done|].
    by rewrite fn_lookup_insert_ne.
Qed.


Lemma shares_xo (a1 a2 : Attachment) :
  xacro_object a1 = xacro_object a2 → shares a1 a2 = true.
Proof. intros Heq. unfold shares. by rewrite bool_decide_eq_true_2. Qed.

Lemma shares_joint (a1 a2 : Attachment) j :
  attached_by a1 = Some j → attached_by a2 = Some j → shares a1 a2 = true.
Proof.
  intros H1 H2. unfold shares. rewrite H1, H2.
  rewrite (bool_decide_eq_true_2 (j = j)) by done. apply orb_true_r.
Qed.

Lemma rooted_chains_spec (chains : list (list Attachment)) :
  rooted_chains chains = true →
  ∀ s1 s2, s1 ∈ positions chains → s2 ∈ positions chains →
           shares s1.2 s2.2 = true → s1 = s2.
Proof.
  unfold rooted_chains. rewrite forallb_forall.
  intros Hall s1 s2 H1 H2 Hsh.
  apply list_elem_of_In in H1, H2.
  specialize (Hall s1 H1). rewrite forallb_forall in Hall.
  specialize (Hall s2 H2). rewrite Hsh in Hall. simpl in Hall.
  by apply bool_decide_eq_true in Hall.
Qed.

Lemma positions_from_lookup (before chain : list Attachment) k a :
  chain !! k = Some a → (before ++ take k chain, a) ∈ positions_from before chain.
Proof.
  revert before k. induction chain as [|b chain IH]; intros before k Hk; [done|].
  destruct k as [|k]; simpl in *.
  - inversion Hk; subst. rewrite app_nil_r. apply list_elem_of_here.
  - apply list_elem_of_further.
    replace (before ++ b :: take k chain) with ((before ++ [b]) ++ take k chain)
      by (by rewrite <- app_assoc).
    by apply IH.
Qed.

Lemma positions_lookup (chains : list (list Attachment)) chain k a :
  chain ∈ chains → chain !! k = Some a → (take k chain, a) ∈ positions chains.
Proof.
  intros Hc Hk. unfold positions. apply list_elem_of_In, in_flat_map.
  exists chain. split; [by apply list_elem_of_In|].
  apply list_elem_of_In. by apply (positions_from_lookup []).
Qed.

(** *** The document after the walk *)

Section WalkFinal.
Variable d0 : Document.
#[local] Abbreviation walk := (fold_left (place_position d0)).

Lemma walk_snoc l s (w : World) : walk (l ++ [s]) w = place_position d0 (walk l w) s.
Proof. by rewrite fold_left_app. Qed.

(** Every joint met on the walk ends with the placement accumulated up to
    its origin. *)
Lemma walk_joint_final l (w : World) :
  (∀ s1 s2, s1 ∈ l → s2 ∈ l → shares s1.2 s2.2 = true → s1 = s2) →
  ∀ s j, s ∈ l → attached_by s.2 = Some j →
    jt_Placement (joints (walk l w).1 j) = joint_product d0 s.1 s.2 j.
Proof.
  induction l as [|[b a] l IH] using rev_ind; intros Hco s j Hs Hj.
  { by apply elem_of_nil in Hs. }
  rewrite walk_snoc, place_position_joint.
  apply elem_of_app in Hs as [Hs|Hs].
  - destruct (attached_by a) as [j0|] eqn:Hby.
    + case_bool_decide as Hjj.
      * subst j0.
        assert (s = (b, a)) as ->; [|done].
        apply Hco; [in_list..|]. by apply (shares_joint _ _ j).
      * apply IH; [|done..]. intros s1 s2 H1 H2. apply Hco; in_list.
    + apply IH; [|done..]. intros s1 s2 H1 H2. apply Hco; in_list.
  - apply list_elem_of_singleton in Hs as ->. simpl in Hj. rewrite Hj.
    by rewrite bool_decide_eq_true_2.
Qed.

(** Every xacro object met on the walk ends with a placement that relates
    to its accumulated product as a skipped write and a done write do. *)
Lemma walk_xo_final (R : Placement → Placement → Prop) l (w : World) :
  (∀ cur t, is_same_placement cur t = false → R t t) →
  (∀ cur t, is_same_placement cur t = true → R cur t) →
  (∀ s1 s2, s1 ∈ l → s2 ∈ l → shares s1.2 s2.2 = true → s1 = s2) →
  ∀ s, s ∈ l →
    R (xo_Placement (xacros (walk l w).1 (xacro_object s.2)))
      (chain_product d0 (s.1 ++ [s.2])).
Proof.
  intros Hwr Hsk.
  induction l as [|[b a] l IH] using rev_ind; intros Hco s Hs.
  { by apply elem_of_nil in Hs. }
  rewrite walk_snoc, place_position_xo.
  assert (Hlast : xacro_object s.2 = xacro_object a →
                  chain_product d0 (s.1 ++ [s.2]) = chain_product d0 (b ++ [a])).
  { intros Heq. assert (s = (b, a)) as ->; [|done].
    apply Hco; [done|in_list|]. by apply shares_xo. }
  case_bool_decide as Hi; simpl.
  - rewrite (Hlast Hi), Hi.
    destruct (is_same_placement _ _) eqn:Hsame; simpl; eauto.
  - apply elem_of_app in Hs as [Hs|Hs].
    + apply IH; [|done]. intros s1 s2 H1 H2. apply Hco; in_list.
    + apply list_elem_of_singleton in Hs as ->. done.
Qed.

(** A walk over positions that are all in place already writes nothing. *)
Lemma walk_idle l (w : World) :
  (∀ s, s ∈ l →
     is_same_placement (xo_Placement (xacros w.1 (xacro_object s.2)))
                       (chain_product d0 (s.1 ++ [s.2])) = true
     ∧ ∀ j, attached_by s.2 = Some j →
            jt_Placement (joints w.1 j) = joint_product d0 s.1 s.2 j) →
  walk l w = w.
Proof.
  induction l as [|[b a] l IH]; intros Hall; cbn [fold_left]; [done|].
  assert (Hstep : place_position d0 w (b, a) = w).
  { destruct (Hall (b, a)) as [Hx Hj]; [in_list|]. simpl in *.
    unfold place_position. destruct (attached_by a) as [j|].
    - rewrite (bool_decide_eq_false_2 (jt_Placement (joints w.1 j) ≠ _))
        by (intros Hne; by apply Hne, Hj).
      by rewrite Hx.
    - by rewrite Hx. }
  rewrite Hstep. apply IH. intros s Hs. apply Hall. in_list.
Qed.

(** A joint whose placement is the one the walk wants is never written. *)
Lemma walk_joint_unwritten l (w : World) j v :
  (∀ s, s ∈ l → attached_by s.2 = Some j → joint_product d0 s.1 s.2 j = v) →
  jt_Placement (joints w.1 j) = v →
  ∀ p, SetJointPlacement j p ∈ (walk l w).2 → SetJointPlacement j p ∈ w.2.
Proof.
  revert w. induction l as [|[b a] l IH]; intros w Hall Hv p Hin;
    cbn [fold_left] in *; [done|].
  assert (Hstep : jt_Placement (joints (place_position d0 w (b, a)).1 j) = v
                  ∧ (SetJointPlacement j p ∈ (place_position d0 w (b, a)).2 →
                     SetJointPlacement j p ∈ w.2)).
  { split.
    - rewrite place_position_joint. destruct (attached_by a) as [j0|] eqn:Hby; [|done].
      case_bool_decide; [subst j0|done]. apply (Hall (b, a)); [in_list|done].
    - unfold place_position.
      destruct (attached_by a) as [j0|] eqn:Hby.
      + case_bool_decide as Hw; destruct (is_same_placement _ _); simpl;
          rewrite ?elem_of_app, ?list_elem_of_singleton; intros Hcase;
          try done; destruct_or?; try done; simplify_eq.
        all: exfalso; apply Hw; symmetry; apply (Hall (b, a)); [in_list|done].
      + destruct (is_same_placement _ _); simpl;
          rewrite ?elem_of_app, ?list_elem_of_singleton; intros Hcase;
          try done; destruct_or?; try done. }
  destruct Hstep as [Hv' Hlog].
  apply Hlog, (IH _ (λ s Hs, Hall s (list_elem_of_further _ _ _ Hs)) Hv' p Hin).
Qed.

Lemma walk_workcell l (w : World) : workcell (walk l w).1 = workcell w.1.
Proof.
  revert w. induction l as [|[b a] l IH]; intros w; cbn [fold_left]; [done|].
  rewrite IH. unfold place_position.
  destruct (attached_by a); [case_bool_decide|];
    destruct (is_same_placement _ _); done.
Qed.

End WalkFinal.

End PlacementFacts.

(** *** The claims on [place_xacro_objects] *)

Section PlacementClaims.
Context `{Collaborators}.

Lemma place_xacro_objects_walk (d : Document) :
  place_xacro_objects d
  = fold_left (place_position d)
      (positions (get_xacro_chains d (get_xacro_objects d) (get_joints d))) (d, []).
Proof.
  unfold place_xacro_objects. apply place_chains_positions, same_inputs_refl.
Qed.

(** C3: when the chains are the root-to-leaf paths of a forest and
    [is_same_placement] holds of equal placements only, every xacro object of
    every chain ends with the product, in traversal order from the root, of
    the link placements, joint origins and joint actuation placements of the
    attachments up to its own; the xacro object of a chain made of one
    attachment without joint and without link ends with the identity. *)
Theorem place_xacro_objects_product (d : Document) :
  (∀ p q, is_same_placement p q = true → p = q) →
  rooted_chains (get_xacro_chains d (get_xacro_objects d) (get_joints d)) = true →
  (∀ chain k a,
     chain ∈ get_xacro_chains d (get_xacro_objects d) (get_joints d) →
     chain !! k = Some a →
     xo_Placement (xacros (place_xacro_objects d).1 (xacro_object a))
     = chain_product d (take (S k) chain))
  ∧ (∀ a,
       [a] ∈ get_xacro_chains d (get_xacro_objects d) (get_joints d) →
       attached_by a = None → attached_to a = None →
       xo_Placement (xacros (place_xacro_objects d).1 (xacro_object a)) = pid).
Proof.
  intros Hexact Hforest.
  assert (Hgen : ∀ chain k a,
     chain ∈ get_xacro_chains d (get_xacro_objects d) (get_joints d) →
     chain !! k = Some a →
     xo_Placement (xacros (place_xacro_objects d).1 (xacro_object a))
     = chain_product d (take (S k) chain)).
  { intros chain k a Hc Hk.
    rewrite place_xacro_objects_walk, (take_S_r _ _ _ Hk).
    apply (walk_xo_final d eq _ _) with (s := (take k chain, a)).
    - done.
    - exact Hexact.
    - by apply rooted_chains_spec.
    - by apply positions_lookup. }
  split; [exact Hgen|].
  intros a Hc Hby Hto.
  rewrite (Hgen [a] 0 a Hc eq_refl). simpl.
  unfold chain_product, attachment_factors, link_factor, joint_factors. simpl.
  by rewrite Hby, Hto.
Qed.

(** C4: when the chains are the root-to-leaf paths of a forest,
    [is_same_placement] holds of a placement and itself, and a second run
    gets the same chains, the second run writes no property: its trace is
    empty and the document is as the first run left it. *)
Theorem place_xacro_objects_idempotent (d : Document) :
  (∀ p, is_same_placement p p = true) →
  rooted_chains (get_xacro_chains d (get_xacro_objects d) (get_joints d)) = true →
  get_xacro_chains (place_xacro_objects d).1
    (get_xacro_objects (place_xacro_objects d).1)
    (get_joints (place_xacro_objects d).1)
  = get_xacro_chains d (get_xacro_objects d) (get_joints d) →
  place_xacro_objects (place_xacro_objects d).1 = ((place_xacro_objects d).1, []).
Proof.
  intros Hrefl Hforest Hsame.
  unfold place_xacro_objects at 1. rewrite Hsame.
  set (chains := get_xacro_chains d (get_xacro_objects d) (get_joints d)) in *.
  assert (Hin : same_inputs d (place_xacro_objects d).1).
  { rewrite place_xacro_objects_walk. apply place_positions_inputs, same_inputs_refl. }
  rewrite (place_chains_positions d) by done.
  apply walk_idle. intros s Hs. split.
  - rewrite place_xacro_objects_walk.
    apply (walk_xo_final d (λ cur t, is_same_placement cur t = true)); try done.
    by apply rooted_chains_spec.
  - intros j Hj. rewrite place_xacro_objects_walk.
    apply walk_joint_final; try done. by apply rooted_chains_spec.
Qed.

(** C9: when the chains are the root-to-leaf paths of a forest, the joint of
    every attachment ends with the placement accumulated up to and including
    its own origin, its actuation placement left out; and a joint that had
    this placement already is not written. *)
Theorem place_xacro_objects_joint_placement (d : Document) :
  rooted_chains (get_xacro_chains d (get_xacro_objects d) (get_joints d)) = true →
  ∀ chain k a j,
    chain ∈ get_xacro_chains d (get_xacro_objects d) (get_joints d) →
    chain !! k = Some a →
    attached_by a = Some j →
    jt_Placement (joints (place_xacro_objects d).1 j)
    = product (flat_map (attachment_factors d) (take k chain)
               ++ link_factor d a ++ [jt_Origin (joints d j)])
    ∧ (jt_Placement (joints d j)
       = product (flat_map (attachment_factors d) (take k chain)
                  ++ link_factor d a ++ [jt_Origin (joints d j)]) →
       ∀ p, SetJointPlacement j p ∉ (place_xacro_objects d).2).
Proof.
  intros Hforest chain k a j Hc Hk Hj.
  fold (joint_product d (take k chain) a j).
  pose proof (rooted_chains_spec _ Hforest) as Hco.
  pose proof (positions_lookup _ _ _ _ Hc Hk) as Hpos.
  rewrite place_xacro_objects_walk. split.
  - by apply (walk_joint_final d _ _ Hco (take k chain, a) j).
  - intros Hcur p Hp.
    apply (walk_joint_unwritten d _ _ j (joint_product d (take k chain) a j)) in Hp.
    + by apply elem_of_nil in Hp.
    + intros s Hs Hsj.
      assert (s = (take k chain, a)) as ->; [|done].
      apply Hco; [done..|]. by apply (shares_joint _ _ j).
    + done.
Qed.

End PlacementClaims.

(** ** Joint enumerations *)

Section EnumFacts.
Context `{Collaborators}.

Lemma collect_links_spec (d : Document) (root : string) :
  collect_links d root = (child_choices d, parent_choices d root).
Proof.
  unfold collect_links, child_choices, parent_choices.
  change ("" :: map (λ i, xo_root_link (xacros d i)) (get_xacro_objects d))
    with ([""] ++ map (λ i, xo_root_link (xacros d i)) (get_xacro_objects d)).
  change ("" :: root :: flat_map (λ i, xo_link_names (xacros d i)) (get_xacro_objects d))
    with ([""; root] ++ flat_map (λ i, xo_link_names (xacros d i)) (get_xacro_objects d)).
  generalize [""] [""; root]. 
  induction (get_xacro_objects d) as [|i l IH]; intros c p; simpl.
  - by rewrite !app_nil_r.
  - rewrite IH. by rewrite <- !app_assoc.
Qed.

Section OneJoint.
Variables child_links parent_links : list string.
#[local] Abbreviation step := (set_one_joint_enum child_links parent_links).

(** What one turn of the loop leaves in the choices of a joint. *)
Lemma step_Child_list (w : World) j j' :
  enum_list (jt_Child (joints (step w j).1 j'))
  = if bool_decide (j' = j) then child_links
    else enum_list (jt_Child (joints w.1 j')).
Proof.
  unfold set_one_joint_enum.
  case_bool_decide as Hc; case_bool_decide as Hp; case_bool_decide as Hj; simpl;
    subst; rewrite ?fn_lookup_insert, ?fn_lookup_insert_ne by done; simpl;
    rewrite ?fn_lookup_insert, ?fn_lookup_insert_ne by done; try done.
  all: by apply dec_stable in Hc.
Qed.

Lemma step_Parent_list (w : World) j j' :
  enum_list (jt_Parent (joints (step w j).1 j'))
  = if bool_decide (j' = j) then parent_links
    else enum_list (jt_Parent (joints w.1 j')).
Proof.
  unfold set_one_joint_enum.
  set (w' := if bool_decide (enum_list (jt_Child (joints w.1 j)) ≠ child_links)
             then _ else _).
  assert (Hw' : ∀ k, jt_Parent (joints w'.1 k) = jt_Parent (joints w.1 k)).
  { intros k. subst w'. case_bool_decide; [|done]. simpl.
    destruct (decide (j = k)) as [->|Hne];
      by rewrite ?fn_lookup_insert, ?fn_lookup_insert_ne by done. }
  case_bool_decide as Hp; case_bool_decide as Hj; simpl; subst;
    rewrite ?fn_lookup_insert, ?fn_lookup_insert_ne by done; simpl;
    rewrite ?Hw'; try done.
Qed.

(** A selected value that the new choices still offer is kept. *)
Lemma assign_enum_keeps (choices : list string) (e : Enumeration) :
  enum_value e ∈ choices → enum_value (assign_enum choices e) = enum_value e.
Proof. intros Hin. unfold assign_enum. simpl. by rewrite bool_decide_eq_true_2. Qed.

Lemma step_Child_value (w : World) j j' :
  enum_value (jt_Child (joints w.1 j')) ∈ child_links →
  enum_value (jt_Child (joints (step w j).1 j')) = enum_value (jt_Child (joints w.1 j')).
Proof.
  intros Hin. unfold set_one_joint_enum.
  case_bool_decide as Hc; case_bool_decide as Hp; simpl;
    destruct (decide (j = j')) as [->|Hne];
    rewrite ?fn_lookup_insert, ?fn_lookup_insert_ne by done; simpl;
    rewrite ?fn_lookup_insert, ?fn_lookup_insert_ne by done; simpl;
    rewrite ?bool_decide_eq_true_2 by done; done.
Qed.

Lemma step_Parent_value (w : World) j j' :
  enum_value (jt_Parent (joints w.1 j')) ∈ parent_links →
  enum_value (jt_Parent (joints (step w j).1 j')) = enum_value (jt_Parent (joints w.1 j')).
Proof.
  intros Hin. unfold set_one_joint_enum.
  case_bool_decide as Hc; case_bool_decide as Hp; simpl;
    destruct (decide (j = j')) as [->|Hne];
    rewrite ?fn_lookup_insert, ?fn_lookup_insert_ne by done; simpl;
    rewrite ?fn_lookup_insert, ?fn_lookup_insert_ne by done; simpl;
    rewrite ?bool_decide_eq_true_2 by done; done.
Qed.

Lemma step_frame (w : World) j :
  workcell (step w j).1 = workcell w.1 ∧ xacros (step w j).1 = xacros w.1.
Proof.
  unfold set_one_joint_enum. by repeat case_bool_decide.
Qed.

(** What one turn of the loop adds to the trace. *)
Lemma step_trace (w : World) j e :
  e ∈ (step w j).2 →
  e ∈ w.2 ∨ e = SetJointChild j child_links ∨ e = SetJointParent j parent_links.
Proof.
  unfold set_one_joint_enum.
  repeat case_bool_decide; simpl;
    rewrite ?elem_of_app, ?list_elem_of_singleton; tauto.
Qed.

Lemma step_idle (w : World) j :
  enum_list (jt_Child (joints w.1 j)) = child_links →
  enum_list (jt_Parent (joints w.1 j)) = parent_links →
  step w j = w.
Proof.
  intros Hc Hp. unfold set_one_joint_enum.
  rewrite (bool_decide_eq_false_2 (_ ≠ child_links)) by (intros Hne; by apply Hne).
  by rewrite (bool_decide_eq_false_2 (_ ≠ parent_links)) by (intros Hne; by apply Hne).
Qed.

(** *** The whole loop *)

Lemma loop_lists (js : list nat) (w : World) j :
  j ∈ js →
  enum_list (jt_Child (joints (fold_left step js w).1 j)) = child_links
  ∧ enum_list (jt_Parent (joints (fold_left step js w).1 j)) = parent_links.
Proof.
  induction js as [|j0 js IH] using rev_ind; intros Hj.
  { by apply elem_of_nil in Hj. }
  rewrite fold_left_app. cbn [fold_left].
  rewrite step_Child_list, step_Parent_list.
  case_bool_decide as Heq; [done|].
  apply elem_of_app in Hj as [Hj|Hj]; [by apply IH|].
  by apply list_elem_of_singleton in Hj.
Qed.

Lemma loop_values (js : list nat) (w : World) j :
  (enum_value (jt_Child (joints w.1 j)) ∈ child_links →
   enum_value (jt_Child (joints (fold_left step js w).1 j))
   = enum_value (jt_Child (joints w.1 j)))
  ∧ (enum_value (jt_Parent (joints w.1 j)) ∈ parent_links →
     enum_value (jt_Parent (joints (fold_left step js w).1 j))
     = enum_value (jt_Parent (joints w.1 j))).
Proof.
  induction js as [|j0 js IH] using rev_ind; [done|].
  rewrite fold_left_app. cbn [fold_left]. destruct IH as [IHc IHp]. split; intros Hin.
  - rewrite step_Child_value; rewrite IHc; done.
  - rewrite step_Parent_value; rewrite IHp; done.
Qed.

Lemma loop_frame (js : list nat) (w : World) :
  workcell (fold_left step js w).1 = workcell w.1
  ∧ xacros (fold_left step js w).1 = xacros w.1.
Proof.
  revert w. induction js as [|j0 js IH]; intros w; cbn [fold_left]; [done|].
  destruct (IH (step w j0)) as [-> ->]. apply step_frame.
Qed.

Lemma loop_trace (js : list nat) (w : World) e :
  e ∈ (fold_left step js w).2 →
  e ∈ w.2 ∨ ∃ j, j ∈ js ∧ (e = SetJointChild j child_links
                           ∨ e = SetJointParent j parent_links).
Proof.
  revert w. induction js as [|j0 js IH]; intros w He; cbn [fold_left] in *; [by left|].
  apply IH in He as [He|(j & Hj & He)].
  - apply step_trace in He as [He|He]; [by left|].
    right. exists j0. split; [apply list_elem_of_here|done].
  - right. exists j. split; [by apply list_elem_of_further|done].
Qed.

Lemma loop_idle (js : list nat) (w : World) :
  (∀ j, j ∈ js → enum_list (jt_Child (joints w.1 j)) = child_links
                 ∧ enum_list (jt_Parent (joints w.1 j)) = parent_links) →
  fold_left step js w = w.
Proof.
  induction js as [|j0 js IH]; intros Hall; cbn [fold_left]; [done|].
  destruct (Hall j0) as [Hc Hp]; [apply list_elem_of_here|].
  rewrite step_idle by done.
  apply IH. intros j Hj. apply Hall. by apply list_elem_of_further.
Qed.

End OneJoint.

Lemma set_joint_enum_loop (d : Document) (root : string) :
  is_ready (workcell d) = true →
  RootLink (workcell d) = Some root →
  set_joint_enum d
  = Ok (fold_left (set_one_joint_enum (child_choices d) (parent_choices d root))
                  (get_joints d) (d, [])).
Proof.
  intros Hready Hroot. unfold set_joint_enum.
  by rewrite Hready, Hroot, collect_links_spec.
Qed.

Lemma set_joint_enum_not_ready (d : Document) :
  is_ready (workcell d) = false → set_joint_enum d = Ok (d, []).
Proof. intros Hready. unfold set_joint_enum. by rewrite Hready. Qed.

Lemma choices_frame (d d' : Document) (root : string) :
  workcell d' = workcell d → xacros d' = xacros d →
  get_joints d' = get_joints d
  ∧ child_choices d' = child_choices d
  ∧ parent_choices d' root = parent_choices d root.
Proof.
  intros Hw Hx.
  unfold get_joints, child_choices, parent_choices, get_xacro_objects.
  by rewrite Hw, Hx.
Qed.

End EnumFacts.

(** *** The claims on [set_joint_enum] *)

Section EnumClaims.
Context `{Collaborators}.

(** C5: [set_joint_enum] run on the document it has just left gives the
    same enumerations and writes nothing; and a run leaves the selected
    [Child] and [Parent] of every joint as they were whenever the new choices
    still offer them. *)
Theorem set_joint_enum_idempotent (d : Document) (root : string) :
  RootLink (workcell d) = Some root →
  ∃ w1 : World,
    set_joint_enum d = Ok w1
    ∧ set_joint_enum w1.1 = Ok (w1.1, [])
    ∧ ∀ j,
        (enum_value (jt_Child (joints d j)) ∈ child_choices d →
         enum_value (jt_Child (joints w1.1 j)) = enum_value (jt_Child (joints d j)))
        ∧ (enum_value (jt_Parent (joints d j)) ∈ parent_choices d root →
           enum_value (jt_Parent (joints w1.1 j)) = enum_value (jt_Parent (joints d j))).
Proof.
  intros Hroot. destruct (is_ready (workcell d)) eqn:Hready.
  - eexists. split; [by apply set_joint_enum_loop|].
    set (w1 := fold_left _ _ _).
    destruct (loop_frame (child_choices d) (parent_choices d root)
                         (get_joints d) (d, [])) as [Hw Hx].
    fold w1 in Hw, Hx. simpl in Hw, Hx.
    destruct (choices_frame d w1.1 root Hw Hx) as (Hj & Hc & Hp).
    split.
    + rewrite (set_joint_enum_loop w1.1 root) by (by rewrite Hw).
      rewrite Hj, Hc, Hp. f_equal.
      apply loop_idle. intros j Hin. by apply loop_lists.
    + intros j. apply (loop_values _ _ (get_joints d) (d, []) j).
  - exists (d, []). split; [by apply set_joint_enum_not_ready|].
    split; [by apply set_joint_enum_not_ready|done].
Qed.

(** C10: every list of choices that [set_joint_enum] writes starts with the
    empty string: the one written to [Child] is the empty string followed by
    the root link of every xacro object, the one written to [Parent] is the
    empty string and the root link of the workcell followed by every link
    name of every xacro object; and after the run every joint of the group
    has exactly these choices. *)
Theorem set_joint_enum_choices (d : Document) (root : string) :
  RootLink (workcell d) = Some root →
  ∃ w1 : World,
    set_joint_enum d = Ok w1
    ∧ (∀ e, e ∈ w1.2 →
         ∃ j, j ∈ get_joints d
              ∧ (e = SetJointChild j
                       ("" :: map (λ i, xo_root_link (xacros d i)) (get_xacro_objects d))
                 ∨ e = SetJointParent j
                         ("" :: root :: flat_map (λ i, xo_link_names (xacros d i))
                                                 (get_xacro_objects d))))
    ∧ (∀ j, j ∈ get_joints d →
         enum_list (jt_Child (joints w1.1 j))
         = "" :: map (λ i, xo_root_link (xacros d i)) (get_xacro_objects d)
         ∧ enum_list (jt_Parent (joints w1.1 j))
           = "" :: root :: flat_map (λ i, xo_link_names (xacros d i))
                                    (get_xacro_objects d)).
Proof.
  intros Hroot. destruct (is_ready (workcell d)) eqn:Hready.
  - eexists. split; [by apply set_joint_enum_loop|]. split.
    + intros e He. apply loop_trace in He as [He|He]; [|done].
      by apply elem_of_nil in He.
    + intros j Hj. by apply loop_lists.
  - exists (d, []). split; [by apply set_joint_enum_not_ready|].
    unfold get_joints. rewrite Hready. simpl.
    split; intros ? Hin; by apply elem_of_nil in Hin.
Qed.

End EnumClaims.

(** ** URDF export *)

Section ExportFacts.
Context `{Collaborators}.

Lemma attaching_joint_et_spec (d : Document) (root : string) (a : Attachment) :
  attaching_joint_et d root a
  = match attached_by a with
    | Some joint =>
        fixed_joint_et (enum_value (jt_Parent (joints d joint)))
                       (enum_value (jt_Child (joints d joint)))
                       (jt_Origin (joints d joint))
    | None =>
        fixed_joint_et root (xo_root_link (xacros d (xacro_object a)))
                       (xo_Placement (xacros d (xacro_object a)))
    end.
Proof. unfold attaching_joint_et. by destruct (attached_by a). Qed.

Lemma result_bind_Ok {A B : Type} (k : A → result B) (a : A) :
  (Ok a ≫= k) = k a.
Proof. done. Qed.

(** One child is appended, whatever [includes] holds. *)
Lemma splice_child_appends (child : Element) (includes : list string) t a c :
  implb (tag_is "xmlns:include" child)
        (match get_attrib "filename" child with
         | Ok _ => true
         | Raise _ => false
         end) = true →
  ∃ includes',
    splice_child (includes, Elem t a c) child = Ok (includes', Elem t a (c ++ [child])).
Proof.
  intros Hwf. unfold splice_child.
  destruct (tag_is "xmlns:include" child); simpl in Hwf.
  - destruct (get_attrib "filename" child) as [f|]; [|done].
    rewrite result_bind_Ok. case_bool_decide; rewrite result_bind_Ok; eauto.
  - rewrite result_bind_Ok. eauto.
Qed.

Lemma splice_children (cs : list Element) (includes : list string) t a c :
  forallb (λ child_et,
             implb (tag_is "xmlns:include" child_et)
                   (match get_attrib "filename" child_et with
                    | Ok _ => true
                    | Raise _ => false
                    end)) cs = true →
  ∃ includes',
    for_each splice_child cs (includes, Elem t a c) = Ok (includes', Elem t a (c ++ cs)).
Proof.
  revert includes c. induction cs as [|child cs IH]; intros includes c Hwf.
  - exists includes. simpl. by rewrite app_nil_r.
  - simpl in Hwf. apply andb_true_iff in Hwf as [Hchild Hcs].
    cbn [for_each].
    destruct (splice_child_appends child includes t a c Hchild) as [inc1 ->].
    rewrite result_bind_Ok.
    destruct (IH inc1 (c ++ [child]) Hcs) as [inc' ->]. exists inc'.
    by rewrite <- app_assoc.
Qed.

Lemma export_attachment_appends (d : Document) (root : string)
    (att : Attachment) (includes : list string) t a c :
  includes_have_filename (xo_export_urdf (xacros d (xacro_object att))) = true →
  ∃ includes',
    export_attachment d root (includes, Elem t a c) att
    = Ok (includes', Elem t a (c ++ attachment_content d root att)).
Proof.
  intros Hwf. unfold export_attachment.
  destruct (splice_children _ includes t a c Hwf) as [inc1 ->].
  rewrite result_bind_Ok. exists inc1.
  unfold attachment_content. simpl. by rewrite <- app_assoc.
Qed.

Lemma export_attachments_loop (d : Document) (root : string)
    (attachments : list Attachment) (includes : list string) t a c :
  forallb (λ a, includes_have_filename (xo_export_urdf (xacros d (xacro_object a))))
          attachments = true →
  ∃ includes',
    for_each (export_attachment d root) attachments (includes, Elem t a c)
    = Ok (includes', Elem t a (c ++ flat_map (attachment_content d root) attachments)).
Proof.
  revert includes c. induction attachments as [|att atts IH]; intros includes c Hwf.
  - exists includes. simpl. by rewrite app_nil_r.
  - simpl in Hwf. apply andb_true_iff in Hwf as [Hatt Hatts].
    cbn [for_each flat_map].
    destruct (export_attachment_appends d root att includes t a c Hatt) as [inc1 ->].
    rewrite result_bind_Ok.
    destruct (IH inc1 (c ++ attachment_content d root att) Hatts) as [inc' ->].
    exists inc'.
    by rewrite <- app_assoc.
Qed.

(** Where the checks at the head of [export_urdf] lead. *)
Lemma export_urdf_not_ready (d : Document) :
  is_ready (workcell d) = false → export_urdf d = Ok (d, []).
Proof. intros Hr. unfold export_urdf. by rewrite Hr. Qed.

Lemma export_urdf_missing (d : Document) :
  OutputPath (workcell d) = None ∨ RootLink (workcell d) = None →
  export_urdf d = Ok (d, []).
Proof.
  intros Hmiss. unfold export_urdf, hasallattr, hasattr.
  destruct (is_ready (workcell d)); [|done]. simpl.
  destruct Hmiss as [-> | ->]; [done|].
  by destruct (OutputPath (workcell d)).
Qed.

Lemma export_urdf_empty (d : Document) (root : string) :
  is_ready (workcell d) = true →
  OutputPath (workcell d) = Some "" →
  RootLink (workcell d) = Some root →
  export_urdf d = Ok (d, [Warn "Property `OutputPath` cannot be empty" true]).
Proof.
  intros Hr Ho Hroot. unfold export_urdf, hasallattr, hasattr.
  by rewrite Hr, Ho, Hroot.
Qed.

(** The export that takes place when nothing stops it. *)
Lemma export_urdf_exported (d : Document) (output root : string) :
  exportable d output root →
  export_urdf d
  = Ok (let p := (get_rel_and_abs_path output).1 in
        let output_path := (get_rel_and_abs_path output).2 in
        let w : World :=
          if bool_decide (p ≠ output)
          then (set_OutputPath p d, [SetOutputPath p])
          else (d, []) in
        let urdf_file :=
          get_valid_filename (ros_name (workcell w.1)) +:+ ".urdf.xacro" in
        (w.1,
         w.2 ++ [Mkdir output_path;
                 SaveXml
                   (Elem "robot"
                      [("name", get_valid_urdf_name (ros_name (workcell d)))]
                      (Comment generated_by
                       :: Elem "link" [("name", root)] []
                       :: flat_map (attachment_content d root) (export_attachments d)))
                   (path_div output_path ("urdf/" +:+ urdf_file));
                 ExportTemplates template_files
                   (split_package_path output_path).1
                   (split_package_path output_path).2 urdf_file])).
Proof.
  intros (Hr & Ho & Hne & Hroot & Hwf).
  unfold export_urdf, hasallattr, hasattr. rewrite Hr, Ho, Hroot. simpl.
  rewrite (bool_decide_eq_false_2 (output = "")) by done.
  unfold robot_et_start, fromstring_empty. simpl.
  destruct (export_attachments_loop d root _ [] "robot"
              [("name", get_valid_urdf_name (ros_name (workcell d)))]
              [Comment generated_by; Elem "link" [("name", root)] []] Hwf)
    as [inc Hloop].
  unfold export_attachments in Hloop. rewrite Hloop, result_bind_Ok.
  destruct (get_rel_and_abs_path output) as [p output_path]. simpl.
  destruct (split_package_path output_path) as [package_parent package_name].
  by case_bool_decide.
Qed.

End ExportFacts.

(** *** The claims on [export_urdf] and [onChanged] *)

Section ExportClaims.
Context `{Collaborators}.

(** C2, amended: before doing anything else [export_urdf] checks that the
    proxy is ready and that the object has the properties [OutputPath] and
    [RootLink], and returns silently, without any warning, when it is not so;
    when [OutputPath] is empty it stops with a user-visible warning.  On each
    of these paths nothing is exported and no file or property is written. *)
Theorem export_urdf_validation (d : Document) :
  (is_ready (workcell d) = false
   ∨ OutputPath (workcell d) = None
   ∨ RootLink (workcell d) = None →
   export_urdf d = Ok (d, []))
  ∧ (∀ root,
       is_ready (workcell d) = true →
       OutputPath (workcell d) = Some "" →
       RootLink (workcell d) = Some root →
       export_urdf d = Ok (d, [Warn "Property `OutputPath` cannot be empty" true])).
Proof.
  split.
  - intros [Hr|Hmiss]; [by apply export_urdf_not_ready|by apply export_urdf_missing].
  - intros root. apply export_urdf_empty.
Qed.

(** C6: in the exported tree every attachment is followed by a joint of type
    [fixed] named [{parent}_to_{child}], whose parent, child and origin are
    the [Parent], [Child] and [Origin] of the attaching joint when there is
    one, and else the root link of the workcell, the root link of the xacro
    object and the placement of the xacro object; a workcell with a single
    xacro object and no joint exports a single such joint, from the root link
    to the root link of the xacro object, with the origin of the identity
    when the xacro object is placed at the identity. *)
Theorem export_urdf_fixed_joints (d : Document) (output root : string) :
  exportable d output root →
  ∃ (w : World) (tree : Element),
    export_urdf d = Ok w
    ∧ saved_xml w.2 = [tree]
    ∧ children tree
      = Comment generated_by
        :: Elem "link" [("name", root)] []
        :: flat_map
             (λ a,
                children (xo_export_urdf (xacros d (xacro_object a)))
                ++ [match attached_by a with
                    | Some joint =>
                        fixed_joint_et (enum_value (jt_Parent (joints d joint)))
                                       (enum_value (jt_Child (joints d joint)))
                                       (jt_Origin (joints d joint))
                    | None =>
                        fixed_joint_et root
                                       (xo_root_link (xacros d (xacro_object a)))
                                       (xo_Placement (xacros d (xacro_object a)))
                    end])
             (export_attachments d)
    ∧ (∀ a,
         export_attachments d = [a] →
         attached_by a = None →
         xo_Placement (xacros d (xacro_object a)) = pid →
         children tree
         = Comment generated_by
           :: Elem "link" [("name", root)] []
           :: children (xo_export_urdf (xacros d (xacro_object a)))
           ++ [Elem "joint"
                 [("name", root +:+ "_to_" +:+ xo_root_link (xacros d (xacro_object a)));
                  ("type", "fixed")]
                 [Elem "parent" [("link", root)] [];
                  Elem "child" [("link", xo_root_link (xacros d (xacro_object a)))] [];
                  urdf_origin_from_placement pid]]).
Proof.
  intros Hex. eexists _, _. split; [by apply export_urdf_exported|].
  split.
  - simpl. case_bool_decide; reflexivity.
  - simpl. split.
    + do 2 f_equal. apply flat_map_ext. intros a.
      unfold attachment_content. by rewrite attaching_joint_et_spec.
    + intros a Hone Hby Hid. rewrite Hone. simpl.
      unfold attachment_content. rewrite attaching_joint_et_spec, Hby, Hid.
      by rewrite app_nil_r.
Qed.

(** C7: the exported tree is a [robot] element whose children are the
    comment, then one [link] element named by [RootLink], then what the
    attachments bring, in their order. *)
Theorem export_urdf_root_link (d : Document) (output root : string) :
  exportable d output root →
  ∃ w : World,
    export_urdf d = Ok w
    ∧ saved_xml w.2
      = [Elem "robot"
           [("name", get_valid_urdf_name (ros_name (workcell d)))]
           (Comment generated_by
            :: Elem "link" [("name", root)] []
            :: flat_map (attachment_content d root) (export_attachments d))].
Proof.
  intros Hex. eexists. split; [by apply export_urdf_exported|].
  simpl. case_bool_decide; reflexivity.
Qed.

(** C8: [onChanged] on [OutputPath] and [export_urdf] write no property but
    [OutputPath], which they set to the path that [remove_ros_workspace],
    respectively [get_rel_and_abs_path], gives for the current one; they do
    not write it when that path is the current one. *)
Theorem OutputPath_normalization (d : Document) (current : string) :
  OutputPath (workcell d) = Some current →
  onChanged d "OutputPath"
  = Ok (if bool_decide (remove_ros_workspace current = current)
        then (d, [])
        else (set_OutputPath (remove_ros_workspace current) d,
              [SetOutputPath (remove_ros_workspace current)]))
  ∧ (∀ prop, prop ≠ "OutputPath" → onChanged d prop = Ok (d, []))
  ∧ (∀ w : World,
       export_urdf d = Ok w →
       List.filter is_property_write w.2 = []
       ∨ ((get_rel_and_abs_path current).1 ≠ current
          ∧ List.filter is_property_write w.2
            = [SetOutputPath (get_rel_and_abs_path current).1]))
  ∧ (∀ root,
       exportable d current root →
       ∃ w : World,
         export_urdf d = Ok w
         ∧ List.filter is_property_write w.2
           = if bool_decide ((get_rel_and_abs_path current).1 = current)
             then []
             else [SetOutputPath (get_rel_and_abs_path current).1]).
Proof.
  intros Ho.
  assert (Hexp : ∀ w : World,
            export_urdf d = Ok w →
            List.filter is_property_write w.2 = []
            ∨ ((get_rel_and_abs_path current).1 ≠ current
               ∧ List.filter is_property_write w.2
                 = [SetOutputPath (get_rel_and_abs_path current).1])).
  { intros w. unfold export_urdf, hasallattr, hasattr.
    destruct (is_ready (workcell d)); simpl; [|intros [= <-]; by left].
    rewrite Ho. simpl.
    destruct (RootLink (workcell d)) as [root|]; simpl; [|intros [= <-]; by left].
    case_bool_decide; [intros [= <-]; by left|].
    destruct (for_each _ _ _) as [[inc tree]|e]; [|done].
    rewrite result_bind_Ok.
    destruct (get_rel_and_abs_path current) as [p output_path]. simpl.
    destruct (split_package_path output_path) as [package_parent package_name].
    case_bool_decide; intros [= <-]; simpl; [by right|by left]. }
  split; [|split; [|split]].
  - unfold onChanged. rewrite Ho. simpl.
    case_bool_decide as Hne; case_bool_decide as Heq; done.
  - intros prop Hprop. unfold onChanged. by rewrite bool_decide_eq_false_2.
  - exact Hexp.
  - intros root Hex. eexists. split; [by apply export_urdf_exported|].
    simpl. case_bool_decide as Hne; case_bool_decide as Heq; done.
Qed.

End ExportClaims.

(** ** Runs on the small host *)

Module Cell.
Import Demo.
#[local] Existing Instance demo_host.

(** The cell once exported to [cell_description], with root link [world]. *)
Definition described : Document := cell (Some "cell_description") (Some "world").

Lemma cell_chains_rooted : rooted_chains cell_chains = true.
Proof. reflexivity. Defined.

Lemma long_chain_in_cell : [table; arm; gripper] ∈ cell_chains.
Proof. do 2 apply list_elem_of_further. apply list_elem_of_here. Defined.

Lemma short_chain_in_cell : [table] ∈ cell_chains.
Proof. apply list_elem_of_here. Defined.

Lemma same_decides_equality (p q : Z * Z) : bool_decide (p = q) = true → p = q.
Proof. apply bool_decide_eq_true_1. Defined.

Lemma same_is_reflexive (p : Z * Z) : bool_decide (p = p) = true.
Proof. by apply bool_decide_eq_true_2. Defined.

Lemma described_exportable :
  exportable (H0 := cell_collaborators) described "cell_description" "world".
Proof. repeat split. discriminate. Defined.

Lemma lone_exportable :
  exportable (H0 := plain_collaborators [table]) lone_workcell
             "cell_description" "world".
Proof. repeat split. discriminate. Defined.

(** C1, on the code: two xacro objects whose exported fragments both hold
    the include of [common.xacro] export a tree that holds it twice. *)
Example export_urdf_repeats_include :
  ∃ (w : World) (tree : Element),
    export_urdf (H0 := plain_collaborators [table; arm]) described = Ok w
    ∧ saved_xml w.2 = [tree]
    ∧ include_directives "common.xacro" tree
      = [include_et "common.xacro"; include_et "common.xacro"].
Proof. eexists _, _. repeat split. Qed.

(** C2, as stated, fails: a workcell without the property [OutputPath] is
    not exported, and no warning is given. *)
Lemma export_urdf_missing_without_warning :
  export_urdf (H0 := cell_collaborators) (cell None (Some "world"))
  = Ok (cell None (Some "world"), [])
  ∧ ¬ (∃ (w : World) (text : string),
         export_urdf (H0 := cell_collaborators) (cell None (Some "world")) = Ok w
         ∧ Warn text true ∈ w.2).
Proof.
  split; [reflexivity|].
  intros (w & text & Hw & Hin). inversion Hw; subst. simpl in Hin.
  by apply elem_of_nil in Hin.
Qed.

Lemma export_urdf_validation_witness :
  export_urdf (H0 := cell_collaborators) (cell (Some "") (Some "world"))
  = Ok (cell (Some "") (Some "world"),
        [Warn "Property `OutputPath` cannot be empty" true]).
Proof.
  apply (proj2 (export_urdf_validation (H0 := cell_collaborators)
                  (cell (Some "") (Some "world"))) "world");
    reflexivity.
Defined.

Lemma place_xacro_objects_product_witness :
  xo_Placement (xacros (place_xacro_objects (H0 := cell_collaborators) described).1 2)
  = (-6, -7)%Z.
Proof.
  exact (proj1 (place_xacro_objects_product (H0 := cell_collaborators) described
                  same_decides_equality cell_chains_rooted)
               [table; arm; gripper] 2 gripper long_chain_in_cell eq_refl).
Defined.

Lemma place_xacro_objects_idempotent_witness :
  place_xacro_objects (H0 := cell_collaborators)
    (place_xacro_objects (H0 := cell_collaborators) described).1
  = ((place_xacro_objects (H0 := cell_collaborators) described).1, []).
Proof.
  exact (place_xacro_objects_idempotent (H0 := cell_collaborators) described
           same_is_reflexive cell_chains_rooted eq_refl).
Defined.

Lemma place_xacro_objects_joint_placement_witness :
  jt_Placement (joints (place_xacro_objects (H0 := cell_collaborators) described).1 1)
  = (-6, 11)%Z.
Proof.
  exact (proj1 (place_xacro_objects_joint_placement (H0 := cell_collaborators)
                  described cell_chains_rooted
                  [table; arm; gripper] 2 gripper 1 long_chain_in_cell
                  eq_refl eq_refl)).
Defined.

Lemma set_joint_enum_idempotent_witness :
  ∃ w1 : World,
    set_joint_enum (H0 := cell_collaborators) described = Ok w1
    ∧ set_joint_enum (H0 := cell_collaborators) w1.1 = Ok (w1.1, []).
Proof.
  destruct (set_joint_enum_idempotent (H0 := cell_collaborators) described "world"
              eq_refl) as (w1 & Hrun & Hagain & _).
  exists w1. split; [exact Hrun|exact Hagain].
Defined.

Lemma set_joint_enum_choices_witness :
  ∃ w1 : World,
    set_joint_enum (H0 := cell_collaborators) described = Ok w1
    ∧ enum_list (jt_Parent (joints w1.1 0))
      = [""; "world"; "table_base"; "table_top"; "arm_base"; "arm_tip"; "gripper_base"].
Proof.
  destruct (set_joint_enum_choices (H0 := cell_collaborators) described "world"
              eq_refl) as (w1 & Hrun & _ & Hlists).
  exists w1. split; [exact Hrun|].
  apply (Hlists 0). apply list_elem_of_here.
Defined.

Lemma export_urdf_fixed_joints_witness :
  ∃ (w : World) (tree : Element),
    export_urdf (H0 := plain_collaborators [table]) lone_workcell = Ok w
    ∧ saved_xml w.2 = [tree]
    ∧ children tree
      = [Comment generated_by;
         Elem "link" [("name", "world")] [];
         include_et "common.xacro";
         Elem "xmlns:part" [("prefix", "t_")] [];
         Elem "joint" [("name", "world_to_table_base"); ("type", "fixed")]
           [Elem "parent" [("link", "world")] [];
            Elem "child" [("link", "table_base")] [];
            Elem "origin" [("xyz", "0 0 0")] []]].
Proof.
  destruct (export_urdf_fixed_joints (H0 := plain_collaborators [table])
              lone_workcell "cell_description" "world" lone_exportable)
    as (w & tree & Hrun & Hsaved & _ & Hlone).
  exists w, tree. split; [exact Hrun|]. split; [exact Hsaved|].
  exact (Hlone table eq_refl eq_refl eq_refl).
Defined.

Lemma export_urdf_root_link_witness :
  ∃ (w : World) (rest : list Element),
    export_urdf (H0 := cell_collaborators) described = Ok w
    ∧ saved_xml w.2
      = [Elem "robot" [("name", "cell")]
           (Comment generated_by :: Elem "link" [("name", "world")] [] :: rest)].
Proof.
  destruct (export_urdf_root_link (H0 := cell_collaborators) described
              "cell_description" "world" described_exportable)
    as (w & Hrun & Hsaved).
  exists w. eexists. split; [exact Hrun|exact Hsaved].
Defined.

Lemma OutputPath_normalization_witness :
  onChanged (cell (Some "/ws/src/cell_description") (Some "world")) "OutputPath"
  = Ok (cell (Some "cell_description") (Some "world"),
        [SetOutputPath "cell_description"]).
Proof.
  exact (proj1 (OutputPath_normalization (H0 := cell_collaborators)
                  (cell (Some "/ws/src/cell_description") (Some "world"))
                  "/ws/src/cell_description" eq_refl)).
Defined.

End Cell.

(** * More on the methods *)

(** ** What [place_xacro_objects] leaves alone, and what it writes *)

Section PlacementMore.
Context `{Collaborators}.

Lemma placements_apart_refl (d : Document) : placements_apart d d.
Proof. by repeat split. Qed.

Lemma placements_apart_trans (d1 d2 d3 : Document) :
  placements_apart d1 d2 → placements_apart d2 d3 → placements_apart d1 d3.
Proof.
  intros (Hw & Hl & Hj & Hx) (Hw' & Hl' & Hj' & Hx').
  split; [congruence|]. split; [congruence|]. split.
  - intros j. destruct (Hj j) as (? & ? & ? & ?), (Hj' j) as (? & ? & ? & ?).
    repeat split; congruence.
  - intros i. destruct (Hx i) as (? & ? & ?), (Hx' i) as (? & ? & ?).
    repeat split; congruence.
Qed.

Lemma placements_apart_set_joint (d : Document) j p :
  placements_apart d (set_joint_Placement j p d).
Proof.
  repeat split; simpl; destruct (decide (j = j0)) as [->|Hne];
    by rewrite ?fn_lookup_insert, ?fn_lookup_insert_ne by done.
Qed.

Lemma placements_apart_set_xo (d : Document) i p :
  placements_apart d (set_xo_Placement i p d).
Proof.
  repeat split; simpl; destruct (decide (i = i0)) as [->|Hne];
    by rewrite ?fn_lookup_insert, ?fn_lookup_insert_ne by done.
Qed.

Lemma place_position_apart (d0 : Document) (w : World) s :
  placements_apart w.1 (place_position d0 w s).1.
Proof.
  destruct s as [b a]. unfold place_position.
  destruct (attached_by a) as [j|].
  - case_bool_decide; destruct (is_same_placement _ _); simpl;
      eauto using placements_apart_refl, placements_apart_set_joint,
        placements_apart_set_xo, placements_apart_trans.
  - destruct (is_same_placement _ _); simpl;
      eauto using placements_apart_refl, placements_apart_set_xo.
Qed.

Lemma walk_apart (d0 : Document) l (w : World) :
  placements_apart w.1 (fold_left (place_position d0) l w).1.
Proof.
  revert w. induction l as [|s l IH]; intros w; cbn [fold_left].
  - apply placements_apart_refl.
  - eapply placements_apart_trans; [apply place_position_apart|apply IH].
Qed.

(** The position of an attachment comes from a chain. *)
Lemma positions_from_inv (before chain : list Attachment) s :
  s ∈ positions_from before chain →
  ∃ k, chain !! k = Some s.2 ∧ s.1 = before ++ take k chain.
Proof.
  revert before. induction chain as [|a chain IH]; intros before Hs; simpl in Hs.
  { by apply elem_of_nil in Hs. }
  apply elem_of_cons in Hs as [->|Hs].
  - exists 0. simpl. by rewrite app_nil_r.
  - destruct (IH _ Hs) as (k & Hk & Hpre). exists (S k). simpl.
    split; [done|]. by rewrite Hpre, <- app_assoc.
Qed.

Lemma positions_inv (chains : list (list Attachment)) s :
  s ∈ positions chains →
  ∃ chain k, chain ∈ chains ∧ chain !! k = Some s.2 ∧ s.1 = take k chain.
Proof.
  unfold positions. intros Hs. apply list_elem_of_In, in_flat_map in Hs.
  destruct Hs as (chain & Hc & Hs).
  apply list_elem_of_In in Hc, Hs.
  destruct (positions_from_inv [] chain s Hs) as (k & Hk & Hpre).
  by exists chain, k.
Qed.

Lemma walk_untouched_xo (d0 : Document) l (w : World) i :
  (∀ s, s ∈ l → xacro_object s.2 ≠ i) →
  xo_Placement (xacros (fold_left (place_position d0) l w).1 i)
  = xo_Placement (xacros w.1 i).
Proof.
  revert w. induction l as [|[b a] l IH]; intros w Hall; cbn [fold_left]; [done|].
  rewrite IH by (intros s Hs; apply Hall; in_list).
  rewrite place_position_xo.
  rewrite (bool_decide_eq_false_2 (i = xacro_object a)); [done|].
  intros ->. by apply (Hall (b, a)); [in_list|].
Qed.

Lemma walk_untouched_joint (d0 : Document) l (w : World) j :
  (∀ s, s ∈ l → attached_by s.2 ≠ Some j) →
  jt_Placement (joints (fold_left (place_position d0) l w).1 j)
  = jt_Placement (joints w.1 j).
Proof.
  revert w. induction l as [|[b a] l IH]; intros w Hall; cbn [fold_left]; [done|].
  rewrite IH by (intros s Hs; apply Hall; in_list).
  rewrite place_position_joint.
  destruct (attached_by a) as [j0|] eqn:Hby; [|done].
  rewrite (bool_decide_eq_false_2 (j = j0)); [done|].
  intros ->. by apply (Hall (b, a)); [in_list|].
Qed.

(** What one step adds to the trace. *)
Lemma place_position_trace (d0 : Document) (w : World) before a e :
  e ∈ (place_position d0 w (before, a)).2 →
  e ∈ w.2
  ∨ e = SetXacroPlacement (xacro_object a) (chain_product d0 (before ++ [a]))
  ∨ ∃ j, attached_by a = Some j
         ∧ e = SetJointPlacement j (joint_product d0 before a j).
Proof.
  unfold place_position.
  destruct (attached_by a) as [j|].
  - case_bool_decide; destruct (is_same_placement _ _); simpl;
      rewrite ?elem_of_app, ?list_elem_of_singleton; intros Hin;
      destruct_or?; eauto.
  - destruct (is_same_placement _ _); simpl;
      rewrite ?elem_of_app, ?list_elem_of_singleton; intros Hin;
      destruct_or?; eauto.
Qed.

Lemma walk_trace (d0 : Document) l (w : World) e :
  e ∈ (fold_left (place_position d0) l w).2 →
  e ∈ w.2
  ∨ ∃ s, s ∈ l
         ∧ (e = SetXacroPlacement (xacro_object s.2) (chain_product d0 (s.1 ++ [s.2]))
            ∨ ∃ j, attached_by s.2 = Some j
                   ∧ e = SetJointPlacement j (joint_product d0 s.1 s.2 j)).
Proof.
  revert w. induction l as [|[b a] l IH]; intros w He; cbn [fold_left] in *; [by left|].
  apply IH in He as [He|(s & Hs & He)].
  - apply place_position_trace in He as [He|He]; [by left|].
    right. exists (b, a). split; [in_list|done].
  - right. exists s. split; [in_list|done].
Qed.

(** X1: whatever the chains, [place_xacro_objects] changes nothing but the
    [Placement] of xacro objects and joints, and of these only the ones that
    occur in a chain. *)
Theorem place_xacro_objects_frame (d : Document) :
  placements_apart d (place_xacro_objects d).1
  ∧ (∀ i,
       (∀ chain a,
          chain ∈ get_xacro_chains d (get_xacro_objects d) (get_joints d) →
          a ∈ chain → xacro_object a ≠ i) →
       xo_Placement (xacros (place_xacro_objects d).1 i) = xo_Placement (xacros d i))
  ∧ (∀ j,
       (∀ chain a,
          chain ∈ get_xacro_chains d (get_xacro_objects d) (get_joints d) →
          a ∈ chain → attached_by a ≠ Some j) →
       jt_Placement (joints (place_xacro_objects d).1 j) = jt_Placement (joints d j)).
Proof.
  rewrite place_xacro_objects_walk. split; [apply (walk_apart d _ (d, []))|].
  split.
  - intros i Hout. apply (walk_untouched_xo d _ (d, [])). intros s Hs.
    destruct (positions_inv _ s Hs) as (chain & k & Hc & Hk & _).
    apply (Hout chain); [done|]. by apply list_elem_of_lookup_2 in Hk.
  - intros j Hout. apply (walk_untouched_joint d _ (d, [])). intros s Hs.
    destruct (positions_inv _ s Hs) as (chain & k & Hc & Hk & _).
    apply (Hout chain); [done|]. by apply list_elem_of_lookup_2 in Hk.
Qed.

(** X2: whatever the chains and whatever [is_same_placement], every value
    that [place_xacro_objects] writes is an accumulated product: to a xacro
    object the product of a chain up to an attachment of this object, to a
    joint the product up to the origin of this joint. *)
Theorem place_xacro_objects_writes_products (d : Document) (e : Event) :
  e ∈ (place_xacro_objects d).2 →
  ∃ chain k a,
    chain ∈ get_xacro_chains d (get_xacro_objects d) (get_joints d)
    ∧ chain !! k = Some a
    ∧ (e = SetXacroPlacement (xacro_object a) (chain_product d (take (S k) chain))
       ∨ ∃ j, attached_by a = Some j
              ∧ e = SetJointPlacement j (joint_product d (take k chain) a j)).
Proof.
  rewrite place_xacro_objects_walk. intros He.
  apply walk_trace in He as [He|(s & Hs & He)]; [by apply elem_of_nil in He|].
  destruct (positions_inv _ s Hs) as (chain & k & Hc & Hk & Hpre).
  exists chain, k, s.2. repeat split; [done..|].
  rewrite (take_S_r _ _ _ Hk), <- Hpre. exact He.
Qed.

(** X3: when the chains are the root-to-leaf paths of a forest, whatever
    [is_same_placement], every xacro object of every chain ends with the
    accumulated product or with a placement that [is_same_placement] takes
    for it. *)
Theorem place_xacro_objects_within_tolerance (d : Document) :
  rooted_chains (get_xacro_chains d (get_xacro_objects d) (get_joints d)) = true →
  ∀ chain k a,
    chain ∈ get_xacro_chains d (get_xacro_objects d) (get_joints d) →
    chain !! k = Some a →
    xo_Placement (xacros (place_xacro_objects d).1 (xacro_object a))
    = chain_product d (take (S k) chain)
    ∨ is_same_placement
        (xo_Placement (xacros (place_xacro_objects d).1 (xacro_object a)))
        (chain_product d (take (S k) chain)) = true.
Proof.
  intros Hforest chain k a Hc Hk.
  rewrite place_xacro_objects_walk, (take_S_r _ _ _ Hk).
  apply (walk_xo_final d (λ cur t, cur = t ∨ is_same_placement cur t = true) _ _)
    with (s := (take k chain, a)); auto.
  - by apply rooted_chains_spec.
  - by apply positions_lookup.
Qed.

End PlacementMore.

(** ** What [set_joint_enum] leaves alone, skips and keeps *)

Section EnumMore.
Context `{Collaborators}.

Lemma enumerations_apart_refl (d : Document) : enumerations_apart d d.
Proof. by repeat split. Qed.

Lemma enumerations_apart_trans (d1 d2 d3 : Document) :
  enumerations_apart d1 d2 → enumerations_apart d2 d3 → enumerations_apart d1 d3.
Proof.
  intros (Hw & Hx & Hl & Hj) (Hw' & Hx' & Hl' & Hj').
  repeat split; try congruence;
    destruct (Hj j) as (? & ? & ?), (Hj' j) as (? & ? & ?); congruence.
Qed.

Lemma enumerations_apart_alter (d : Document) (f : Joint → Joint) j :
  (∀ x, jt_Placement (f x) = jt_Placement x
        ∧ jt_Origin (f x) = jt_Origin x
        ∧ jt_actuation_placement (f x) = jt_actuation_placement x) →
  enumerations_apart d (alter_joint f j d).
Proof.
  intros Hf. repeat split; simpl; destruct (decide (j = j0)) as [->|Hne];
    rewrite ?fn_lookup_insert, ?fn_lookup_insert_ne by done; try done;
    apply Hf.
Qed.

Section OneJointMore.
Variables child_links parent_links : list string.
#[local] Abbreviation step := (set_one_joint_enum child_links parent_links).

Lemma step_apart (w : World) j : enumerations_apart w.1 (step w j).1.
Proof.
  unfold set_one_joint_enum.
  repeat case_bool_decide; simpl;
    eauto using enumerations_apart_refl;
    repeat (eapply enumerations_apart_trans;
            [|by apply enumerations_apart_alter]);
    apply enumerations_apart_refl.
Qed.

Lemma step_other_joint (w : World) j j' :
  j' ≠ j → joints (step w j).1 j' = joints w.1 j'.
Proof.
  intros Hne. unfold set_one_joint_enum.
  repeat case_bool_decide; simpl;
    by rewrite ?fn_lookup_insert_ne by done.
Qed.

Lemma step_trace_Child (w : World) j j' l :
  SetJointChild j' l ∈ (step w j).2 →
  SetJointChild j' l ∈ w.2
  ∨ (j' = j ∧ enum_list (jt_Child (joints w.1 j)) ≠ child_links).
Proof.
  unfold set_one_joint_enum.
  case_bool_decide as Hc; case_bool_decide as Hp; simpl;
    rewrite ?elem_of_app, ?list_elem_of_singleton; intros Hin;
    destruct_or?; simplify_eq; auto.
Qed.

Lemma step_trace_Parent (w : World) j j' l :
  SetJointParent j' l ∈ (step w j).2 →
  SetJointParent j' l ∈ w.2
  ∨ (j' = j ∧ enum_list (jt_Parent (joints w.1 j)) ≠ parent_links).
Proof.
  unfold set_one_joint_enum.
  case_bool_decide as Hc; case_bool_decide as Hp; simpl in *;
    rewrite ?elem_of_app, ?list_elem_of_singleton; intros Hin;
    destruct_or?; simplify_eq; auto.
  right. split; [done|].
  by rewrite fn_lookup_insert in Hc.
Qed.

Lemma loop_apart (js : list nat) (w : World) :
  enumerations_apart w.1 (fold_left step js w).1.
Proof.
  revert w. induction js as [|j js IH]; intros w; cbn [fold_left].
  - apply enumerations_apart_refl.
  - eapply enumerations_apart_trans; [apply step_apart|apply IH].
Qed.

Lemma loop_other_joint (js : list nat) (w : World) j' :
  j' ∉ js → joints (fold_left step js w).1 j' = joints w.1 j'.
Proof.
  revert w. induction js as [|j js IH]; intros w Hout; cbn [fold_left]; [done|].
  apply not_elem_of_cons in Hout as [Hne Hout].
  rewrite IH by done. by apply step_other_joint.
Qed.

Lemma loop_skips_Child (js : list nat) (w : World) j' l :
  enum_list (jt_Child (joints w.1 j')) = child_links →
  SetJointChild j' l ∈ (fold_left step js w).2 → SetJointChild j' l ∈ w.2.
Proof.
  revert w. induction js as [|j js IH]; intros w Hset Hin; cbn [fold_left] in *; [done|].
  apply IH in Hin.
  - apply step_trace_Child in Hin as [Hin|[-> Hne]]; done.
  - rewrite step_Child_list. by case_bool_decide.
Qed.

Lemma loop_skips_Parent (js : list nat) (w : World) j' l :
  enum_list (jt_Parent (joints w.1 j')) = parent_links →
  SetJointParent j' l ∈ (fold_left step js w).2 → SetJointParent j' l ∈ w.2.
Proof.
  revert w. induction js as [|j js IH]; intros w Hset Hin; cbn [fold_left] in *; [done|].
  apply IH in Hin.
  - apply step_trace_Parent in Hin as [Hin|[-> Hne]]; done.
  - rewrite step_Parent_list. by case_bool_decide.
Qed.

End OneJointMore.

(** The two ways [set_joint_enum] returns. *)
Lemma set_joint_enum_Ok (d : Document) (w : World) :
  set_joint_enum d = Ok w →
  (is_ready (workcell d) = false ∧ w = (d, []))
  ∨ ∃ root,
      is_ready (workcell d) = true ∧ RootLink (workcell d) = Some root
      ∧ w = fold_left (set_one_joint_enum (child_choices d) (parent_choices d root))
                      (get_joints d) (d, []).
Proof.
  destruct (is_ready (workcell d)) eqn:Hready.
  - destruct (RootLink (workcell d)) as [root|] eqn:Hroot.
    + rewrite (set_joint_enum_loop d root) by done. intros [= <-].
      right. by exists root.
    + unfold set_joint_enum. by rewrite Hready, Hroot.
  - rewrite set_joint_enum_not_ready by done. intros [= <-]. by left.
Qed.

(** X4: [set_joint_enum] changes nothing but the [Child] and [Parent] of
    joints, and leaves the joints that are not in the group of the workcell
    as they are. *)
Theorem set_joint_enum_frame (d : Document) (w : World) :
  set_joint_enum d = Ok w →
  enumerations_apart d w.1
  ∧ ∀ j, j ∉ get_joints d → joints w.1 j = joints d j.
Proof.
  intros Hrun. apply set_joint_enum_Ok in Hrun as [[_ ->]|(root & _ & _ & ->)].
  - split; [apply enumerations_apart_refl|done].
  - split; [apply (loop_apart _ _ _ (d, []))|].
    intros j Hj. by apply (loop_other_joint _ _ _ (d, [])).
Qed.

(** X5: a joint that offers the new choices for [Child] already gets no
    write to [Child], whatever is written to the other joints; and so for
    [Parent]. *)
Theorem set_joint_enum_skips (d : Document) (w : World) (j : nat) :
  set_joint_enum d = Ok w →
  (enum_list (jt_Child (joints d j)) = child_choices d →
   ∀ l, SetJointChild j l ∉ w.2)
  ∧ (∀ root,
       RootLink (workcell d) = Some root →
       enum_list (jt_Parent (joints d j)) = parent_choices d root →
       ∀ l, SetJointParent j l ∉ w.2).
Proof.
  intros Hrun.
  apply set_joint_enum_Ok in Hrun as [[_ ->]|(root & _ & Hroot & ->)].
  - split; [intros _ l Hin|intros root _ _ l Hin]; by apply elem_of_nil in Hin.
  - split.
    + intros Hset l Hin. apply loop_skips_Child in Hin; [|done].
      by apply elem_of_nil in Hin.
    + intros root' Hroot' Hset l Hin. simplify_eq.
      apply loop_skips_Parent in Hin; [|done].
      by apply elem_of_nil in Hin.
Qed.

(** X6: the choices that are always offered are never lost: after
    [set_joint_enum] an unset [Child] or [Parent] is still unset, a [Parent]
    that is the root link of the workcell is still so, and a [Child] that is
    the root link of a xacro object of the workcell is still so. *)
Theorem set_joint_enum_keeps_offered (d : Document) (root : string) :
  RootLink (workcell d) = Some root →
  ∃ w : World,
    set_joint_enum d = Ok w
    ∧ ∀ j,
        (enum_value (jt_Child (joints d j)) = "" →
         enum_value (jt_Child (joints w.1 j)) = "")
        ∧ (enum_value (jt_Parent (joints d j)) = "" →
           enum_value (jt_Parent (joints w.1 j)) = "")
        ∧ (enum_value (jt_Parent (joints d j)) = root →
           enum_value (jt_Parent (joints w.1 j)) = root)
        ∧ (∀ i, i ∈ get_xacro_objects d →
                enum_value (jt_Child (joints d j)) = xo_root_link (xacros d i) →
                enum_value (jt_Child (joints w.1 j)) = xo_root_link (xacros d i)).
Proof.
  intros Hroot. destruct (is_ready (workcell d)) eqn:Hready.
  - eexists. split; [by apply set_joint_enum_loop|]. intros j.
    destruct (loop_values (child_choices d) (parent_choices d root)
                (get_joints d) (d, []) j) as [Hc Hp]. simpl in Hc, Hp.
    repeat split.
    + intros Hv. rewrite Hc; [done|]. rewrite Hv. apply list_elem_of_here.
    + intros Hv. rewrite Hp; [done|]. rewrite Hv. apply list_elem_of_here.
    + intros Hv. rewrite Hp; [done|]. rewrite Hv.
      apply list_elem_of_further, list_elem_of_here.
    + intros i Hi Hv. rewrite Hc; [done|]. rewrite Hv.
      apply list_elem_of_further.
      apply (list_elem_of_fmap_2 (λ i, xo_root_link (xacros d i))), Hi.
  - exists (d, []). split; [by apply set_joint_enum_not_ready|done].
Qed.

End EnumMore.

(** ** [execute] *)

Section ExecuteMore.
Context `{Collaborators}.

(** A second walk over the same rooted chains writes nothing. *)
Lemma place_xacro_objects_again (d : Document) :
  (∀ p, is_same_placement p p = true) →
  rooted_chains (get_xacro_chains d (get_xacro_objects d) (get_joints d)) = true →
  get_xacro_chains (place_xacro_objects d).1
    (get_xacro_objects (place_xacro_objects d).1)
    (get_joints (place_xacro_objects d).1)
  = get_xacro_chains d (get_xacro_objects d) (get_joints d) →
  place_xacro_objects (place_xacro_objects d).1 = ((place_xacro_objects d).1, []).
Proof.
  intros Hrefl Hforest Hsame.
  unfold place_xacro_objects at 1. rewrite Hsame.
  assert (Hin : same_inputs d (place_xacro_objects d).1).
  { rewrite place_xacro_objects_walk. apply place_positions_inputs, same_inputs_refl. }
  rewrite (place_chains_positions d) by done.
  apply walk_idle. intros s Hs. split.
  - rewrite place_xacro_objects_walk.
    apply (walk_xo_final d (λ cur t, is_same_placement cur t = true)); try done.
    by apply rooted_chains_spec.
  - intros j Hj. rewrite place_xacro_objects_walk.
    apply walk_joint_final; try done. by apply rooted_chains_spec.
Qed.

(** The choices depend on the workcell and on the names of the xacro
    objects only. *)
Lemma choices_apart (d d' : Document) (root : string) :
  placements_apart d d' →
  get_joints d' = get_joints d
  ∧ child_choices d' = child_choices d
  ∧ parent_choices d' root = parent_choices d root.
Proof.
  intros (Hw & _ & _ & Hx).
  unfold get_joints, child_choices, parent_choices, get_xacro_objects.
  rewrite Hw. repeat split.
  - f_equal. apply map_ext. intros i. apply Hx.
  - do 2 f_equal. apply flat_map_ext. intros i. apply Hx.
Qed.

(** X7: [execute] run on the document it has just left writes nothing, when
    the chains are the root-to-leaf paths of a forest, stay the same, and
    [is_same_placement] holds of a placement and itself. *)
Theorem execute_settles (d : Document) (w1 : World) :
  (∀ p, is_same_placement p p = true) →
  set_joint_enum d = Ok w1 →
  rooted_chains
    (get_xacro_chains w1.1 (get_xacro_objects w1.1) (get_joints w1.1)) = true →
  get_xacro_chains (place_xacro_objects w1.1).1
    (get_xacro_objects (place_xacro_objects w1.1).1)
    (get_joints (place_xacro_objects w1.1).1)
  = get_xacro_chains w1.1 (get_xacro_objects w1.1) (get_joints w1.1) →
  ∃ w2 : World,
    execute d = Ok w2
    ∧ w2.1 = (place_xacro_objects w1.1).1
    ∧ w2.2 = w1.2 ++ (place_xacro_objects w1.1).2
    ∧ execute w2.1 = Ok (w2.1, []).
Proof.
  intros Hrefl Hrun Hforest Hsame.
  exists ((place_xacro_objects w1.1).1, w1.2 ++ (place_xacro_objects w1.1).2).
  split; [unfold execute; by rewrite Hrun|].
  simpl. split; [done|]. split; [done|].
  set (d2 := (place_xacro_objects w1.1).1).
  assert (Hpl : placements_apart w1.1 d2).
  { subst d2. rewrite place_xacro_objects_walk. apply (walk_apart _ _ (w1.1, [])). }
  assert (Henum : set_joint_enum d2 = Ok (d2, [])).
  { pose proof Hrun as Hcase.
    apply set_joint_enum_Ok in Hcase as [[Hready ->]|(root & Hready & Hroot & Hw1)].
    - apply set_joint_enum_not_ready. destruct Hpl as (-> & _). exact Hready.
    - simplify_eq.
      destruct (loop_frame (child_choices d) (parent_choices d root)
                  (get_joints d) (d, [])) as [Hw Hx]. simpl in Hw, Hx.
      set (w1 := fold_left _ _ _) in *.
      destruct (choices_frame d w1.1 root Hw Hx) as (Hj1 & Hc1 & Hp1).
      destruct (choices_apart w1.1 d2 root Hpl) as (Hj2 & Hc2 & Hp2).
      rewrite (set_joint_enum_loop d2 root).
      + f_equal. apply loop_idle. intros j Hj.
        destruct Hpl as (_ & _ & Hjs & _).
        destruct (Hjs j) as (_ & _ & HP & HC). simpl. rewrite HP, HC.
        rewrite Hc2, Hp2, Hc1, Hp1. apply loop_lists.
        by rewrite Hj2, Hj1 in Hj.
      + destruct Hpl as (-> & _). by rewrite Hw.
      + destruct Hpl as (-> & _). by rewrite Hw. }
  unfold execute. rewrite Henum, result_bind_Ok. simpl.
  subst d2. by rewrite place_xacro_objects_again.
Qed.

End ExecuteMore.

(** ** More on [export_urdf] and [onChanged] *)

Section ExportMore.
Context `{Collaborators}.

Lemma get_attrib_raises (k : string) (e : Element) (x : exn) :
  get_attrib k e = Raise x → x = KeyError k.
Proof.
  destruct e as [t a c|s]; simpl; [|by intros [= <-]].
  destruct (dict_get k a); [done|by intros [= <-]].
Qed.

(** One child: either it is spliced, or the loop stops on its missing
    [filename]. *)
Lemma splice_child_cases (s : list string * Element) (child : Element) :
  (implb (tag_is "xmlns:include" child)
         (match get_attrib "filename" child with
          | Ok _ => true
          | Raise _ => false
          end) = true
   ∧ ∃ s', splice_child s child = Ok s')
  ∨ (implb (tag_is "xmlns:include" child)
           (match get_attrib "filename" child with
            | Ok _ => true
            | Raise _ => false
            end) = false
     ∧ splice_child s child = Raise (KeyError "filename")).
Proof.
  destruct s as [inc robot]. unfold splice_child.
  destruct (tag_is "xmlns:include" child); cbn [implb].
  - destruct (get_attrib "filename" child) as [f|x] eqn:Hf.
    + left. split; [done|]. rewrite result_bind_Ok.
      case_bool_decide; rewrite result_bind_Ok; eauto.
    + right. split; [done|]. by rewrite (get_attrib_raises _ _ _ Hf).
  - left. split; [done|]. rewrite result_bind_Ok. eauto.
Qed.

Lemma splice_children_raise (cs : list Element) (s : list string * Element) :
  forallb (λ child_et,
             implb (tag_is "xmlns:include" child_et)
                   (match get_attrib "filename" child_et with
                    | Ok _ => true
                    | Raise _ => false
                    end)) cs = false →
  for_each splice_child cs s = Raise (KeyError "filename").
Proof.
  revert s. induction cs as [|child cs IH]; intros s Hbad; [done|].
  cbn [for_each]. simpl in Hbad.
  destruct (splice_child_cases s child) as [[Hok [s' ->]]|[Hno ->]]; [|done].
  rewrite result_bind_Ok. apply IH. by rewrite Hok in Hbad.
Qed.

Lemma splice_children_cases (cs : list Element) (s : list string * Element) :
  (∃ s', for_each splice_child cs s = Ok s')
  ∨ for_each splice_child cs s = Raise (KeyError "filename").
Proof.
  revert s. induction cs as [|child cs IH]; intros s; [left; by eexists|].
  cbn [for_each].
  destruct (splice_child_cases s child) as [[Hok [s' ->]]|[Hno ->]]; [|by right].
  rewrite result_bind_Ok. apply IH.
Qed.

Lemma export_attachment_unfold (d : Document) (root : string)
    (s : list string * Element) (att : Attachment) :
  export_attachment d root s att
  = (for_each splice_child
       (children (xo_export_urdf (xacros d (xacro_object att)))) s
     ≫= λ '(includes, robot_et),
          Ok (includes, append (attaching_joint_et d root att) robot_et)).
Proof. done. Qed.

Lemma export_attachments_raise (d : Document) (root : string)
    (attachments : list Attachment) (s : list string * Element) :
  forallb (λ a, includes_have_filename (xo_export_urdf (xacros d (xacro_object a))))
          attachments = false →
  for_each (export_attachment d root) attachments s = Raise (KeyError "filename").
Proof.
  revert s. induction attachments as [|att atts IH]; intros s Hbad; [done|].
  cbn [for_each]. simpl in Hbad. rewrite export_attachment_unfold.
  destruct (includes_have_filename _) eqn:Hatt.
  - destruct (splice_children_cases
                (children (xo_export_urdf (xacros d (xacro_object att)))) s)
      as [[[inc r] ->]| ->]; [|done].
    rewrite !result_bind_Ok. by apply IH.
  - unfold includes_have_filename in Hatt.
    by rewrite (splice_children_raise _ s Hatt).
Qed.

(** X8: when the checks at its head pass and an exported xacro has an
    [xmlns:include] child without [filename], [export_urdf] raises
    [KeyError('filename')]; no file and no property has been written. *)
Theorem export_urdf_KeyError (d : Document) (output root : string) :
  is_ready (workcell d) = true →
  OutputPath (workcell d) = Some output →
  output ≠ "" →
  RootLink (workcell d) = Some root →
  forallb (λ a, includes_have_filename (xo_export_urdf (xacros d (xacro_object a))))
          (export_attachments d) = false →
  export_urdf d = Raise (KeyError "filename").
Proof.
  intros Hr Ho Hne Hroot Hbad.
  unfold export_urdf, hasallattr, hasattr. rewrite Hr, Ho, Hroot. simpl.
  rewrite (bool_decide_eq_false_2 (output = "")) by done.
  unfold export_attachments in Hbad.
  by rewrite (export_attachments_raise d root _ _ Hbad).
Qed.

(** The ways [export_urdf] returns. *)
Lemma export_urdf_Ok (d : Document) (w : World) :
  export_urdf d = Ok w →
  w = (d, [])
  ∨ w = (d, [Warn "Property `OutputPath` cannot be empty" true])
  ∨ ∃ output root includes robot_et,
      OutputPath (workcell d) = Some output ∧ output ≠ ""
      ∧ RootLink (workcell d) = Some root
      ∧ for_each (export_attachment d root) (export_attachments d)
                 ([], robot_et_start d root) = Ok (includes, robot_et)
      ∧ let p := (get_rel_and_abs_path output).1 in
        let output_path := (get_rel_and_abs_path output).2 in
        let w0 : World :=
          if bool_decide (p ≠ output)
          then (set_OutputPath p d, [SetOutputPath p])
          else (d, []) in
        let urdf_file :=
          get_valid_filename (ros_name (workcell w0.1)) +:+ ".urdf.xacro" in
        w = (w0.1,
             w0.2 ++ [Mkdir output_path;
                      SaveXml robot_et (path_div output_path ("urdf/" +:+ urdf_file));
                      ExportTemplates template_files
                        (split_package_path output_path).1
                        (split_package_path output_path).2 urdf_file]).
Proof.
  unfold export_urdf, hasallattr, hasattr.
  destruct (is_ready (workcell d)); simpl; [|intros [= <-]; by left].
  destruct (OutputPath (workcell d)) as [output|] eqn:Ho; simpl;
    [|intros [= <-]; by left].
  destruct (RootLink (workcell d)) as [root|] eqn:Hroot; simpl;
    [|intros [= <-]; by left].
  case_bool_decide as Hne; [intros [= <-]; right; by left|].
  destruct (for_each _ _ _) as [[inc tree]|e] eqn:Hloop; [|done].
  rewrite result_bind_Ok.
  destruct (get_rel_and_abs_path output) as [p output_path] eqn:Hp. simpl.
  destruct (split_package_path output_path) as [package_parent package_name] eqn:Hs.
  intros [= <-]. right; right. exists output, root, inc, tree.
  repeat split; try done. rewrite Hp. simpl. rewrite Hs. simpl.
  by case_bool_decide.
Qed.

(** X9: the file operations of [export_urdf], when there are any, are the
    creation of the output directory, the saving of the tree under
    [urdf/<name>.urdf.xacro] in it, and the export of the four templates
    with the same file name, in this order; the name is taken from the
    workcell after its [OutputPath] has been normalised. *)
Theorem export_urdf_files (d : Document) (w : World) :
  export_urdf d = Ok w →
  List.filter is_file_write w.2 = []
  ∨ ∃ output robot_et,
      OutputPath (workcell d) = Some output
      ∧ output ≠ ""
      ∧ List.filter is_file_write w.2
        = [Mkdir (get_rel_and_abs_path output).2;
           SaveXml robot_et
             (path_div (get_rel_and_abs_path output).2
                ("urdf/" +:+ (get_valid_filename (ros_name (workcell w.1))
                              +:+ ".urdf.xacro")));
           ExportTemplates
             ["package.xml"; "CMakeLists.txt"; "launch/display.launch.py";
              "rviz/robot_description.rviz"]
             (split_package_path (get_rel_and_abs_path output).2).1
             (split_package_path (get_rel_and_abs_path output).2).2
             (get_valid_filename (ros_name (workcell w.1)) +:+ ".urdf.xacro")].
Proof.
  intros Hrun.
  apply export_urdf_Ok in Hrun
    as [->|[->|(output & root & inc & tree & Ho & Hne & _ & _ & ->)]];
    [by left..|].
  right. exists output, tree. repeat split; [done..|].
  simpl. by case_bool_decide.
Qed.

(** X10: [export_urdf] leaves the xacro objects, the joints, the links, the
    root link and the group of the workcell as they are; [OutputPath] is
    as it was or is the relative path that [get_rel_and_abs_path] gives for
    it. *)
Theorem export_urdf_document (d : Document) (w : World) :
  export_urdf d = Ok w →
  xacros w.1 = xacros d
  ∧ joints w.1 = joints d
  ∧ links w.1 = links d
  ∧ RootLink (workcell w.1) = RootLink (workcell d)
  ∧ Group (workcell w.1) = Group (workcell d)
  ∧ (OutputPath (workcell w.1) = OutputPath (workcell d)
     ∨ ∃ output,
         OutputPath (workcell d) = Some output
         ∧ OutputPath (workcell w.1) = Some (get_rel_and_abs_path output).1).
Proof.
  intros Hrun.
  apply export_urdf_Ok in Hrun
    as [->|[->|(output & root & inc & tree & Ho & Hne & _ & _ & ->)]];
    [by repeat split; try left..|].
  simpl. case_bool_decide; simpl; repeat split; eauto.
Qed.

(** X11: [onChanged] on [OutputPath] settles: when [remove_ros_workspace]
    gives for the relative path this path itself, the call that the write
    of [OutputPath] brings about writes nothing; and [onChanged] changes no
    other property. *)
Theorem onChanged_settles (d : Document) (current : string) :
  OutputPath (workcell d) = Some current →
  remove_ros_workspace (remove_ros_workspace current) = remove_ros_workspace current →
  ∃ w : World,
    onChanged d "OutputPath" = Ok w
    ∧ OutputPath (workcell w.1) = Some (remove_ros_workspace current)
    ∧ onChanged w.1 "OutputPath" = Ok (w.1, [])
    ∧ xacros w.1 = xacros d ∧ joints w.1 = joints d ∧ links w.1 = links d
    ∧ RootLink (workcell w.1) = RootLink (workcell d)
    ∧ Group (workcell w.1) = Group (workcell d).
Proof.
  intros Ho Hidem. unfold onChanged at 1. rewrite Ho. simpl.
  case_bool_decide as Hne.
  - eexists. split; [done|]. simpl. split; [done|]. split; [|done].
    unfold onChanged. simpl. by rewrite bool_decide_eq_false_2 by (by intros ?).
  - exists (d, []). split; [done|]. simpl.
    split; [by rewrite Ho, Hne|]. split; [|done].
    unfold onChanged. rewrite Ho. simpl.
    by rewrite bool_decide_eq_false_2 by (by intros ?).
Qed.

End ExportMore.

(** ** The saved state *)

(** X12: the state that [__getstate__] gives restores the [Type] it was
    taken from, on any proxy; a state of one element is what
    [__getstate__] gives after it has been set; a false state changes
    nothing, and a state of more than one element is refused. *)
Theorem getstate_setstate (self other : WorkcellProxy) :
  __setstate__ other (Some (__getstate__ self)) = Some self
  ∧ (∀ t, ∃ restored,
        __setstate__ other (Some [t]) = Some restored
        ∧ __getstate__ restored = [t])
  ∧ __setstate__ self None = Some self
  ∧ __setstate__ self (Some []) = Some self
  ∧ (∀ t1 t2 rest, __setstate__ self (Some (t1 :: t2 :: rest)) = None).
Proof.
  destruct self as [t0]. repeat split; eauto.
Qed.

(** ** The list of includes that the export loop keeps *)

Section IncludesMore.
Context `{Collaborators}.

Lemma splice_child_includes (includes includes' : list string)
    (robot_et robot_et' child : Element) :
  splice_child (includes, robot_et) child = Ok (includes', robot_et') →
  NoDup includes →
  NoDup includes'
  ∧ ∀ f, f ∈ includes' ↔ f ∈ includes ∨ child_filename child = Some f.
Proof.
  unfold splice_child, child_filename.
  destruct (tag_is "xmlns:include" child).
  - destruct (get_attrib "filename" child) as [f0|x]; [|done].
    rewrite result_bind_Ok.
    case_bool_decide as Hin; rewrite result_bind_Ok; intros [= <- <-] Hnd.
    + split.
      * apply NoDup_app. repeat split; [done| |apply NoDup_singleton].
        intros x Hx ->%list_elem_of_singleton. done.
      * intros f. rewrite elem_of_app, list_elem_of_singleton.
        split; (intros [?|?]; [by left|right; congruence]).
    + split; [done|]. intros f.
      split; [by left|]. intros [?|[= <-]]; done.
  - rewrite result_bind_Ok. intros [= <- <-] Hnd. split; [done|].
    intros f. split; [by left|]. by intros [?|?].
Qed.

Lemma splice_children_includes (cs : list Element)
    (includes includes' : list string) (robot_et robot_et' : Element) :
  for_each splice_child cs (includes, robot_et) = Ok (includes', robot_et') →
  NoDup includes →
  NoDup includes'
  ∧ ∀ f, f ∈ includes' ↔ f ∈ includes ∨ f ∈ omap child_filename cs.
Proof.
  revert includes robot_et.
  induction cs as [|child cs IH]; intros includes robot_et; cbn [for_each].
  - intros [= <- <-] Hnd. split; [done|]. intros f. split; [by left|].
    intros [?|Hin]; [done|]. by apply elem_of_nil in Hin.
  - destruct (splice_child (includes, robot_et) child) as [[inc1 r1]|x] eqn:Hstep;
      [|done].
    rewrite result_bind_Ok. intros Hrest Hnd.
    destruct (splice_child_includes _ _ _ _ _ Hstep Hnd) as [Hnd1 Hin1].
    destruct (IH _ _ Hrest Hnd1) as [Hnd' Hin']. split; [done|].
    intros f. rewrite Hin', Hin1. simpl.
    destruct (child_filename child) as [f0|]; rewrite ?elem_of_cons;
      split; intros Hcase; destruct_or?; simplify_eq; auto.
Qed.

Lemma export_attachments_includes (d : Document) (root : string)
    (attachments : list Attachment) (includes includes' : list string)
    (robot_et robot_et' : Element) :
  for_each (export_attachment d root) attachments (includes, robot_et)
  = Ok (includes', robot_et') →
  NoDup includes →
  NoDup includes'
  ∧ ∀ f, f ∈ includes'
         ↔ f ∈ includes
           ∨ ∃ a, a ∈ attachments
                  ∧ f ∈ include_filenames (xo_export_urdf (xacros d (xacro_object a))).
Proof.
  revert includes robot_et.
  induction attachments as [|att atts IH]; intros includes robot_et; cbn [for_each].
  - intros [= <- <-] Hnd. split; [done|]. intros f. split; [by left|].
    intros [?|(a & Ha & _)]; [done|]. by apply elem_of_nil in Ha.
  - rewrite export_attachment_unfold.
    destruct (for_each splice_child _ _) as [[inc1 r1]|x] eqn:Hsplice; [|done].
    rewrite !result_bind_Ok. intros Hrest Hnd.
    destruct (splice_children_includes _ _ _ _ _ Hsplice Hnd) as [Hnd1 Hin1].
    destruct (IH _ _ Hrest Hnd1) as [Hnd' Hin']. split; [done|].
    intros f. rewrite Hin', Hin1.
    fold (include_filenames (xo_export_urdf (xacros d (xacro_object att)))).
    split.
    + intros [[?|?]|(a & Ha & Hf)]; [by left| |].
      * right. exists att. split; [apply list_elem_of_here|done].
      * right. exists a. split; [by apply list_elem_of_further|done].
    + intros [?|(a & Ha & Hf)]; [by left; left|].
      apply elem_of_cons in Ha as [->|Ha]; [by left; right|].
      right. by exists a.
Qed.

(** X13: the list [includes] that the loop of [export_urdf] keeps holds,
    when the loop ends, every filename of an [xmlns:include] child of an
    exported xacro, and holds it once. *)
Theorem export_loop_includes (d : Document) (root : string)
    (includes : list string) (robot_et : Element) :
  for_each (export_attachment d root) (export_attachments d)
           ([], robot_et_start d root) = Ok (includes, robot_et) →
  NoDup includes
  ∧ ∀ f, f ∈ includes
         ↔ ∃ a, a ∈ export_attachments d
                ∧ f ∈ include_filenames (xo_export_urdf (xacros d (xacro_object a))).
Proof.
  intros Hloop.
  destruct (export_attachments_includes _ _ _ _ _ _ _ Hloop (NoDup_nil_2))
    as [Hnd Hin].
  split; [done|]. intros f. rewrite Hin. split; [|by right].
  intros [Hnil|?]; [|done]. by apply elem_of_nil in Hnil.
Qed.

End IncludesMore.

(** ** More runs on the small host *)

Module CellMore.
Import Demo DemoMore.
#[local] Existing Instance demo_host.

Definition described : Document := Cell.described.

Definition enumerated : World :=
  returned (set_joint_enum (H0 := cell_collaborators) described) described.

Definition exported : World :=
  returned (export_urdf (H0 := cell_collaborators) described) described.

Lemma place_xacro_objects_writes_products_witness :
  ∃ chain k a,
    chain ∈ cell_chains
    ∧ chain !! k = Some a
    ∧ (SetXacroPlacement (H := demo_host) 2 (-6, -7)%Z
       = SetXacroPlacement (xacro_object a)
           (chain_product described (take (S k) chain))
       ∨ ∃ j, attached_by a = Some j
              ∧ SetXacroPlacement (H := demo_host) 2 (-6, -7)%Z
                = SetJointPlacement j (joint_product described (take k chain) a j)).
Proof.
  apply (place_xacro_objects_writes_products (H0 := cell_collaborators) described
           (SetXacroPlacement (H := demo_host) 2 (-6, -7)%Z)).
  do 3 apply list_elem_of_further. apply list_elem_of_here.
Defined.

Lemma place_xacro_objects_within_tolerance_witness :
  xo_Placement (xacros (place_xacro_objects (H0 := cell_collaborators) described).1 1)
  = (-1, 12)%Z
  ∨ bool_decide
      (xo_Placement (xacros (place_xacro_objects (H0 := cell_collaborators) described).1 1)
       = (-1, 12)%Z) = true.
Proof.
  exact (place_xacro_objects_within_tolerance (H0 := cell_collaborators) described
           Cell.cell_chains_rooted [table; arm; gripper] 1 arm
           Cell.long_chain_in_cell eq_refl).
Defined.

Lemma set_joint_enum_frame_witness :
  enumerations_apart described enumerated.1.
Proof.
  exact (proj1 (set_joint_enum_frame (H0 := cell_collaborators) described
                  enumerated eq_refl)).
Defined.

Lemma set_joint_enum_skips_witness :
  SetJointChild 0 [""; "table_base"; "arm_base"; "gripper_base"]
  ∉ (returned (set_joint_enum (H0 := cell_collaborators) half_set_cell)
              half_set_cell).2.
Proof.
  exact (proj1 (set_joint_enum_skips (H0 := cell_collaborators) half_set_cell
                  (returned (set_joint_enum (H0 := cell_collaborators) half_set_cell)
                            half_set_cell)
                  0 eq_refl) eq_refl
               [""; "table_base"; "arm_base"; "gripper_base"]).
Defined.

Lemma set_joint_enum_keeps_offered_witness :
  ∃ w : World,
    set_joint_enum (H0 := cell_collaborators) described = Ok w
    ∧ enum_value (jt_Child (joints w.1 0)) = "arm_base".
Proof.
  destruct (set_joint_enum_keeps_offered (H0 := cell_collaborators) described "world"
              eq_refl) as (w & Hrun & Hkeep).
  exists w. split; [exact Hrun|].
  destruct (Hkeep 0) as (_ & _ & _ & Hroot).
  apply (Hroot 1); [|reflexivity].
  apply list_elem_of_further, list_elem_of_here.
Defined.

Lemma execute_settles_witness :
  ∃ w2 : World,
    execute (H0 := cell_collaborators) described = Ok w2
    ∧ execute (H0 := cell_collaborators) w2.1 = Ok (w2.1, []).
Proof.
  destruct (execute_settles (H0 := cell_collaborators) described enumerated
              Cell.same_is_reflexive eq_refl eq_refl eq_refl)
    as (w2 & Hrun & _ & _ & Hagain).
  exists w2. split; [exact Hrun|exact Hagain].
Defined.

Lemma broken_cell_output_not_empty : "cell_description" ≠ "".
Proof. discriminate. Defined.

Lemma export_urdf_KeyError_witness :
  export_urdf (H0 := plain_collaborators [table]) broken_cell
  = Raise (KeyError "filename").
Proof.
  exact (export_urdf_KeyError (H0 := plain_collaborators [table]) broken_cell
           "cell_description" "world" eq_refl eq_refl
           broken_cell_output_not_empty eq_refl eq_refl).
Defined.

Lemma export_urdf_files_witness :
  List.filter is_file_write exported.2 = []
  ∨ ∃ output robot_et,
      OutputPath (workcell described) = Some output
      ∧ output ≠ ""
      ∧ List.filter is_file_write exported.2
        = [Mkdir (get_rel_and_abs_path output).2;
           SaveXml robot_et
             (path_div (get_rel_and_abs_path output).2
                ("urdf/" +:+ (get_valid_filename
                                (ros_name (Collaborators := cell_collaborators)
                                          (workcell exported.1))
                              +:+ ".urdf.xacro")));
           ExportTemplates
             ["package.xml"; "CMakeLists.txt"; "launch/display.launch.py";
              "rviz/robot_description.rviz"]
             (split_package_path (get_rel_and_abs_path output).2).1
             (split_package_path (get_rel_and_abs_path output).2).2
             (get_valid_filename
                (ros_name (Collaborators := cell_collaborators)
                          (workcell exported.1))
              +:+ ".urdf.xacro")].
Proof.
  exact (export_urdf_files (H0 := cell_collaborators) described exported eq_refl).
Defined.

Lemma export_urdf_document_witness :
  joints exported.1 = joints described
  ∧ RootLink (workcell exported.1) = Some "world".
Proof.
  destruct (export_urdf_document (H0 := cell_collaborators) described exported
              eq_refl) as (_ & Hj & _ & Hroot & _).
  split; [exact Hj|exact Hroot].
Defined.

Lemma onChanged_settles_witness :
  ∃ w : World,
    onChanged (cell (Some "/ws/src/cell_description") (Some "world")) "OutputPath"
    = Ok w
    ∧ OutputPath (workcell w.1) = Some "cell_description"
    ∧ onChanged w.1 "OutputPath" = Ok (w.1, []).
Proof.
  destruct (onChanged_settles
              (cell (Some "/ws/src/cell_description") (Some "world"))
              "/ws/src/cell_description" eq_refl eq_refl)
    as (w & Hrun & Hpath & Hagain & _).
  exists w. split; [exact Hrun|]. split; [exact Hpath|exact Hagain].
Defined.

Definition looped : list string * Element :=
  match for_each (export_attachment described "world")
                 (export_attachments (H0 := cell_collaborators) described)
                 ([], robot_et_start (H0 := cell_collaborators) described "world")
  with
  | Ok s => s
  | Raise _ => ([], Comment "")
  end.

Lemma export_loop_includes_witness :
  NoDup looped.1 ∧ "common.xacro" ∈ looped.1.
Proof.
  destruct (export_loop_includes (H0 := cell_collaborators) described "world"
              looped.1 looped.2 eq_refl) as [Hnd Hin].
  split; [exact Hnd|].
  apply Hin. exists table. split; apply list_elem_of_here.
Defined.

End CellMore.
